(** * dmfrbloom: a Bloom filter over a byte-packed bit field

    A shallow embedding of [dmfrbloom/bloomfilter.py].

    - Python integers are [Z]; [%] is [Z.modulo] (the result takes the sign of
      the divisor, as in Python) with the division by zero written out.
    - Python floats are idealised as real numbers ([R]): [math.log] is [ln],
      [int()] truncates toward zero, [math.ceil] and [round] are the exact
      ones.  Rounding error of IEEE doubles is not modelled.
    - A raised exception is a value of [Py.result]; a call that raises is
      aborted and the object it was mutating is not followed further.
    - [mmh3.hash] is a dependency of the module and is taken as a parameter
      [mmh3_hash : string -> Z -> Z]. *)

From Stdlib Require Import ZArith Reals Lra Lia List String.
From Stdlib.Strings Require Import Byte.
From stdpp Require Import base list pretty strings gmap.
Import ListNotations.
Local Open Scope Z_scope.

(** ** The fragment of Python the module uses *)

Module Py.

Inductive exn : Type :=
| ZeroDivisionError
| IndexError
| ValueError
| OverflowError
| FileNotFoundError.

Inductive result (A : Type) : Type :=
| Ok (a : A)
| Raise (e : exn).
Arguments Ok {A} a.
Arguments Raise {A} e.

#[global] Instance result_ret : MRet result := fun _ a => Ok a.
#[global] Instance result_bind : MBind result :=
  fun _ _ f m => match m with Ok a => f a | Raise e => Raise e end.

(** Values handed to [add] and [lookup], and what [str()] makes of them. *)
Inductive object : Type :=
| PyInt (z : Z)
| PyStr (s : string)
| PyBool (b : bool)
| PyNone.

Definition str (o : object) : string :=
  match o with
  | PyInt z => pretty z
  | PyStr s => s
  | PyBool true => "True"
  | PyBool false => "False"
  | PyNone => "None"
  end.

(** [range(n)]: the integers [0 .. n-1], empty when [n <= 0]. *)
Definition range (n : Z) : list Z := map Z.of_nat (seq 0 (Z.to_nat n)).

(** [a % b] on integers. *)
Definition mod_ (a b : Z) : result Z :=
  if b =? 0 then Raise ZeroDivisionError else Ok (a mod b).

(** [l[i]] on a list: negative positions count from the end. *)
Definition getitem {A : Type} (l : list A) (i : Z) : result A :=
  let n := Z.of_nat (length l) in
  let j := if i <? 0 then i + n else i in
  if (j <? 0) || (n <=? j) then Raise IndexError
  else match l !! Z.to_nat j with
       | Some a => Ok a
       | None => Raise IndexError
       end.

(** [int.to_bytes(length, byteorder="little")]: refuses negative integers
    and integers that need more than [length] bytes. *)
Definition byte_of_Z (z : Z) : byte :=
  match Byte.of_N (Z.to_N (z mod 256)) with
  | Some b => b
  | None => x00
  end.

Fixpoint le_digits (length : nat) (z : Z) : list byte :=
  match length with
  | O => []
  | S n => byte_of_Z z :: le_digits n (z / 256)
  end.

Definition to_bytes (z : Z) (length : nat) : result (list byte) :=
  if (z <? 0) || (256 ^ Z.of_nat length <=? z) then Raise OverflowError
  else Ok (le_digits length z).

(** [int.from_bytes(bytes, byteorder="little")]. *)
Fixpoint from_bytes (bs : list byte) : Z :=
  match bs with
  | [] => 0
  | b :: rest => Z.of_N (Byte.to_N b) + 256 * from_bytes rest
  end.

(** *** Floats, read as real numbers *)

(** [math.log(x)]: a domain error outside the positive numbers. *)
Definition log (x : R) : result R :=
  if Rle_dec x 0 then Raise ValueError else Ok (ln x).

(** [a / b], true division. *)
Definition truediv (a b : R) : result R :=
  if Req_dec_T b 0 then Raise ZeroDivisionError else Ok (a / b)%R.

(** [math.log(x, base)], computed as [log(x) / log(base)]. *)
Definition log_base (x base : R) : result R :=
  num ← log x;
  den ← log base;
  truediv num den.

(** [x ** n] for a float [x] and an integer [n]. *)
Definition pow_ (x : R) (n : Z) : result R :=
  if n <? 0 then
    if Req_dec_T x 0 then Raise ZeroDivisionError
    else Ok (/ (x ^ Z.to_nat (- n)))%R
  else Ok (x ^ Z.to_nat n)%R.

(** [int(x)]: truncation toward zero ([Int_part] is the floor). *)
Definition int_ (x : R) : Z :=
  if Rle_dec 0 x then Int_part x else - Int_part (- x).

(** [math.ceil(x)]. *)
Definition ceil (x : R) : Z := - Int_part (- x).

(** The integer nearest to [y], ties going to the even one. *)
Definition round_half_even (y : R) : Z :=
  let n := Int_part y in
  let d := (y - IZR n)%R in
  if Rlt_dec d (1 / 2) then n
  else if Rlt_dec (1 / 2) d then n + 1
  else if Z.even n then n else n + 1.

(** [round(x, ndigits)]. *)
Definition round_ (x : R) (ndigits : nat) : R :=
  (IZR (round_half_even (x * 10 ^ ndigits)) / 10 ^ ndigits)%R.

(** [a << n] on integers: a negative shift count is refused. *)
Definition lshift (a n : Z) : result Z :=
  if n <? 0 then Raise ValueError else Ok (Z.shiftl a n).

(** What [print] was given: one entry per call, with its arguments. *)
Inductive printed : Type :=
| PrintStr (s : string)
| PrintFloat (x : R).

Definition stdout : Type := list (list printed).

(** The files the process can see, by path. *)
Abbreviation files := (gmap string (list byte)).

End Py.

Import Py.

(** ** BitField *)

Module BitField.

(** Modelled from the spec: [dmfrbloom/bitfield.py] (class [BitField], which
    [bloomfilter.py] imports) is not among the sources.  Section 4.1 gives
    a densely packed buffer of [ceil(bit_count / 8)] zero bytes; bit [index]
    lives in byte [index / 8] at position [index % 8], least significant
    bit first.  The attribute holding the buffer is called [bitfield] by
    [BloomFilter.save] and [BloomFilter.load]. *)
Record t : Type := mk { bit_count : Z; bitfield : list byte }.

Definition ceil_div (a b : Z) : Z := - ((- a) / b).

(** Modelled from the spec: [new(bit_count)] of section 4.1, the constructor
    [BitField(size)] of the absent [bitfield.py].  A buffer of negative
    length cannot be allocated. *)
Definition new (bit_count : Z) : result t :=
  let n := ceil_div bit_count 8 in
  if n <? 0 then Raise ValueError
  else Ok (mk bit_count (replicate (Z.to_nat n) x00)).

(** [byte | (1 << k)] and [(byte & (1 << k)) != 0] on one byte of the
    buffer; [k] is a position [index % 8], so the result of the first is
    again a byte. *)
Definition byte_set (b : byte) (k : N) : byte :=
  match Byte.of_N (N.lor (Byte.to_N b) (N.shiftl 1 k)) with
  | Some b' => b'
  | None => b
  end.

Definition byte_test (b : byte) (k : N) : bool :=
  negb (N.land (Byte.to_N b) (N.shiftl 1 k) =? 0)%N.

(** Modelled from the spec: [set_bit(index)] of section 4.1 ([setbit] in
    the absent [bitfield.py]).  The spec leaves a position outside the
    buffer undefined in the source and asks for a hard failure; here
    it raises [IndexError]. *)
Definition setbit (self : t) (index : Z) : result t :=
  if index <? 0 then Raise IndexError
  else
    let i := Z.to_nat (index / 8) in
    match bitfield self !! i with
    | Some b =>
        Ok (mk (bit_count self)
              (<[i := byte_set b (Z.to_N (index mod 8))]> (bitfield self)))
    | None => Raise IndexError
    end.

(** Modelled from the spec: [get_bit(index)] of section 4.1 ([getbit] in
    the absent [bitfield.py]); it returns a boolean and reads the buffer
    only. *)
Definition getbit (self : t) (index : Z) : result bool :=
  if index <? 0 then Raise IndexError
  else
    match bitfield self !! Z.to_nat (index / 8) with
    | Some b => Ok (byte_test b (Z.to_N (index mod 8)))
    | None => Raise IndexError
    end.

(** The invariant of section 3: the buffer has [ceil(bit_count / 8)]
    bytes. *)
Definition sized (self : t) : Prop :=
  Z.of_nat (length (bitfield self)) = ceil_div (bit_count self) 8.

End BitField.

(** ** BloomFilter: membership *)

Module BloomFilter.

Record t : Type := mk { size : Z; hashcount : Z; filter : BitField.t }.

Section Membership.

(** [mmh3.hash(key, seed)]. *)
Variable mmh3_hash : string -> Z -> Z.

(** [mmh3.hash(str(element), seed) % self.size], the position that both
    [add] and [lookup] hand to the bit field. *)
Definition bit_index (self : t) (element : object) (seed : Z) : result Z :=
  mod_ (mmh3_hash (str element) seed) (size self).

(** The body of [add]'s loop over the remaining seeds. *)
Fixpoint add_loop (self : t) (element : object) (seeds : list Z) : result t :=
  match seeds with
  | [] => Ok self
  | seed :: rest =>
      result ← bit_index self element seed;
      bits ← BitField.setbit (filter self) result;
      add_loop (mk (size self) (hashcount self) bits) element rest
  end.

Definition add (self : t) (element : object) : result t :=
  add_loop self element (range (hashcount self)).

(** The body of [lookup]'s loop: it returns [False] at the first unset
    bit and [True] when the seeds are exhausted. *)
Fixpoint lookup_loop (self : t) (element : object) (seeds : list Z) : result bool :=
  match seeds with
  | [] => Ok true
  | seed :: rest =>
      result ← bit_index self element seed;
      bit ← BitField.getbit (filter self) result;
      if negb bit then Ok false else lookup_loop self element rest
  end.

Definition lookup (self : t) (element : object) : result bool :=
  lookup_loop self element (range (hashcount self)).

(** Adding several elements one after the other. *)
Fixpoint add_all (self : t) (elements : list object) : result t :=
  match elements with
  | [] => Ok self
  | e :: rest => self' ← add self e; add_all self' rest
  end.

End Membership.

(** The parameters the data model asks of a filter, and the state of its
    bit field after [__init__]: [BitField(self.size)] with any bits set. *)
Definition valid (self : t) : Prop := 1 <= size self /\ 1 <= hashcount self.

Definition allocated (self : t) : Prop :=
  BitField.bit_count (filter self) = size self /\ BitField.sized (filter self).

(** *** Persistence *)

(** [save]: [size] and [hashcount] as 16 little-endian bytes each, then the
    buffer, written to [path].  Every path can be written: failures of
    [open] are not modelled. *)
Definition save (self : t) (path : string) (fs : files) : result files :=
  header_size ← to_bytes (size self) 16;
  header_hashcount ← to_bytes (hashcount self) 16;
  Ok (<[path := header_size ++ header_hashcount
                ++ BitField.bitfield (filter self)]> fs).

(** [load]: overwrites [size], [hashcount] and the buffer of the bit field
    of an existing filter with what the file holds; [read(16)] returns
    fewer bytes when the file is short. *)
Definition load (self : t) (path : string) (fs : files) : result t :=
  match fs !! path with
  | None => Raise FileNotFoundError
  | Some content =>
      Ok (mk (from_bytes (take 16 content))
            (from_bytes (take 16 (drop 16 content)))
            (BitField.mk (BitField.bit_count (filter self))
               (drop 32 content)))
  end.

(** *** Sizing *)

(** [ideal_size(expected, fp_rate)]:
    [int(-(expected * log(fp_rate)) / (log(2) ** 2))]. *)
Definition ideal_size (expected : Z) (fp_rate : R) : result Z :=
  l ← log fp_rate;
  l2 ← log 2;
  sq ← pow_ l2 2;
  q ← truediv (- (IZR expected * l)) sq;
  Ok (int_ q).

(** [ideal_hashcount(expected)]:
    [int((self.size / int(expected)) * log(2))]; of the filter it reads
    [self.size] only, which is all [__init__] has set when it calls it. *)
Definition ideal_hashcount (self_size : Z) (expected : Z) : result Z :=
  q ← truediv (IZR self_size) (IZR expected);
  l2 ← log 2;
  Ok (int_ (q * l2)).

(** [__init__(expected_items, fp_rate)]. *)
Definition init (expected_items : Z) (fp_rate : R) : result t :=
  size ← ideal_size expected_items fp_rate;
  hashcount ← ideal_hashcount size expected_items;
  filter ← BitField.new size;
  Ok (mk size hashcount filter).

(** [accuracy(size, hashcount, elements)]: the value returned, and what the
    call printed. *)
Definition accuracy (size hashcount elements : Z) : result (R * stdout) :=
  inv ← truediv 1 (IZR size);
  p ← pow_ (1 - inv) (hashcount * elements);
  false_positive ← pow_ (1 - p) hashcount;
  Ok (round_ (100 - false_positive * 100) 4,
      [[PrintStr "FALSE: "; PrintFloat false_positive]]).

(** [bytesize]: [ceil(self.size / 8)]. *)
Definition bytesize (self : t) : Z := ceil (IZR (size self) / 8).

Definition suffix : list string :=
  ["bytes"; "Kb"; "Mb"; "Gb"; "Tb"; "Pb"; "Eb"; "Zb"; "Yb"]%string.

(** [order] of [bytesize_human]:
    [int(log(ceil(self.size) / 8, 2) / 10) if self.size else 0]; the
    ceiling is taken of the integer [self.size], before the division. *)
Definition order (self : t) : result Z :=
  if size self =? 0 then Ok 0
  else
    l ← log_base (IZR (size self) / 8) 2;
    Ok (int_ (l / 10)).

(** [bytesize_human]: the rounded number and the suffix that the method
    joins into one string. *)
Definition bytesize_human (self : t) : result (R * string) :=
  order ← order self;
  unit_size ← lshift 1 (order * 10);
  scaled ← truediv (IZR (ceil (IZR (size self) / 8))) (IZR unit_size);
  name ← getitem suffix order;
  Ok (round_ scaled 4, name).

End BloomFilter.

(** ** Inputs of the worked examples *)

(** A stand-in for [mmh3.hash] where an example needs some hash function; it
    returns negative integers too, as the signed 32-bit hash does. *)
Definition sample_hash (key : string) (seed : Z) : Z :=
  seed * 31 - Z.of_nat (String.length key) * 7.

(** A filter of 10 bits and 3 hashes, as [__init__] leaves it: two zero
    bytes. *)
Definition sample_filter : BloomFilter.t :=
  BloomFilter.mk 10 3 (BitField.mk 10 [x00; x00]).

(** A filter of two bits and one hash: what [BloomFilter(1, 0.25)] builds. *)
Definition small_filter : BloomFilter.t :=
  BloomFilter.mk 2 1 (BitField.mk 2 [x00]).

(** A filter of one bit and no hash: what [BloomFilter(1, 0.5)] builds. *)
Definition degenerate_filter : BloomFilter.t :=
  BloomFilter.mk 1 0 (BitField.mk 1 [x00]).

(** * Properties *)

(** ** The definitions on small inputs *)

Example range_3 : range 3 = [0; 1; 2] /\ range (-2) = [].
Proof. split; reflexivity. Qed.

Example to_bytes_258 :
  to_bytes 258 2 = Ok [x02; x01]
  /\ from_bytes [x02; x01] = 258
  /\ to_bytes 65536 2 = Raise OverflowError
  /\ to_bytes (-1) 2 = Raise OverflowError.
Proof. repeat split; reflexivity. Qed.

Example suffix_items :
  getitem BloomFilter.suffix 1 = Ok "Kb"%string
  /\ getitem BloomFilter.suffix (-1) = Ok "Yb"%string
  /\ getitem BloomFilter.suffix 9 = Raise IndexError.
Proof. repeat split; reflexivity. Qed.

(** Bit 9 is bit 1 of byte 1; bit 16 is outside a buffer of two bytes. *)
Example setbit_9 :
  BitField.setbit (BitField.mk 10 [x00; x00]) 9 = Ok (BitField.mk 10 [x00; x02])
  /\ BitField.getbit (BitField.mk 10 [x00; x02]) 9 = Ok true
  /\ BitField.getbit (BitField.mk 10 [x00; x02]) 8 = Ok false
  /\ BitField.setbit (BitField.mk 10 [x00; x00]) 16 = Raise IndexError.
Proof. repeat split; reflexivity. Qed.

(** With the stand-in hash, ["spam"] goes to bits 2, 3 and 4. *)
Example add_spam :
  BloomFilter.lookup sample_hash sample_filter (PyStr "spam") = Ok false
  /\ BloomFilter.add sample_hash sample_filter (PyStr "spam")
     = Ok (BloomFilter.mk 10 3 (BitField.mk 10 [x1c; x00]))
  /\ BloomFilter.lookup sample_hash
       (BloomFilter.mk 10 3 (BitField.mk 10 [x1c; x00])) (PyStr "spam") = Ok true
  /\ BloomFilter.lookup sample_hash
       (BloomFilter.mk 10 3 (BitField.mk 10 [x1c; x00])) (PyInt 3) = Ok false.
Proof. repeat split; reflexivity. Qed.

(** A filter of size 0 cannot reduce a hash. *)
Example lookup_size_0 :
  BloomFilter.lookup sample_hash (BloomFilter.mk 0 1 (BitField.mk 0 [])) PyNone
  = Raise ZeroDivisionError.
Proof. reflexivity. Qed.

(** ** Bits of one byte *)

Section ByteBits.

Import BitField.

Let positions : list N := [0; 1; 2; 3; 4; 5; 6; 7]%N.

Lemma position_In (k : N) : (k < 8)%N -> In k positions.
Proof.
  intros Hk. unfold positions.
  assert (k = 0 \/ k = 1 \/ k = 2 \/ k = 3 \/ k = 4 \/ k = 5 \/ k = 6 \/ k = 7)%N
    as Hcases by lia.
  simpl. intuition.
Qed.

(** All 256 bytes, all 64 pairs of positions, by evaluation. *)
Lemma byte_set_table (b : byte) :
  forallb (fun k =>
    forallb (fun j =>
      Bool.eqb (byte_test (byte_set b k) j) ((j =? k)%N || byte_test b j))
      positions) positions = true.
Proof. destruct b; vm_compute; reflexivity. Qed.

Lemma byte_test_set (b : byte) (k j : N) :
  (k < 8)%N -> (j < 8)%N ->
  byte_test (byte_set b k) j = ((j =? k)%N || byte_test b j).
Proof.
  intros Hk Hj.
  pose proof (byte_set_table b) as Htab.
  rewrite forallb_forall in Htab.
  specialize (Htab k (position_In k Hk)).
  rewrite forallb_forall in Htab.
  specialize (Htab j (position_In j Hj)).
  now apply Bool.eqb_prop in Htab.
Qed.

End ByteBits.

(** ** The bit field *)

Section BitFieldFacts.

Import BitField.

Lemma ceil_div_8 (n : Z) : ceil_div n 8 = (n + 7) / 8.
Proof.
  unfold ceil_div.
  replace (n + 7) with (- (- n) + 7) by lia.
  generalize (- n). intros m.
  pose proof (Z.div_mod m 8 ltac:(lia)).
  pose proof (Z.mod_pos_bound m 8 ltac:(lia)).
  pose proof (Z.div_mod (- m + 7) 8 ltac:(lia)).
  pose proof (Z.mod_pos_bound (- m + 7) 8 ltac:(lia)).
  lia.
Qed.

(** A position below [bit_count] has its byte inside a buffer of
    [ceil(bit_count / 8)] bytes. *)
Lemma sized_position (self : t) (index : Z) :
  sized self -> 0 <= index < bit_count self ->
  (Z.to_nat (index / 8) < length (bitfield self))%nat.
Proof.
  unfold sized. rewrite ceil_div_8. intros Hlen [H0 Hlt].
  assert (index / 8 < (bit_count self + 7) / 8).
  { pose proof (Z.div_mod index 8 ltac:(lia)).
    pose proof (Z.mod_pos_bound index 8 ltac:(lia)).
    pose proof (Z.div_mod (bit_count self + 7) 8 ltac:(lia)).
    pose proof (Z.mod_pos_bound (bit_count self + 7) 8 ltac:(lia)).
    lia. }
  assert (0 <= index / 8) by (apply Z.div_pos; lia).
  lia.
Qed.

Lemma new_sized (n : Z) (self : t) : new n = Ok self -> bit_count self = n /\ sized self.
Proof.
  unfold new, sized. destruct (ceil_div n 8 <? 0) eqn:E; [discriminate |].
  intros [= <-]. simpl. split; [reflexivity |].
  rewrite length_replicate. lia.
Qed.

Lemma setbit_Ok (self : t) (index : Z) :
  0 <= index -> (Z.to_nat (index / 8) < length (bitfield self))%nat ->
  exists self', setbit self index = Ok self'.
Proof.
  intros H0 Hlt. unfold setbit.
  destruct (index <? 0) eqn:E; [lia |].
  destruct (lookup_lt_is_Some_2 _ _ Hlt) as [b ->]. eauto.
Qed.

Lemma setbit_shape (self self' : t) (index : Z) :
  setbit self index = Ok self' ->
  bit_count self' = bit_count self /\
  length (bitfield self') = length (bitfield self).
Proof.
  unfold setbit. destruct (index <? 0); [discriminate |].
  destruct (bitfield self !! Z.to_nat (index / 8)); [| discriminate].
  intros [= <-]. simpl. now rewrite length_insert.
Qed.

(** What [getbit] sees after a [setbit]: the bit just set, and every other
    bit as it was. *)
Lemma getbit_setbit (self self' : t) (i j : Z) :
  setbit self i = Ok self' -> 0 <= j ->
  getbit self' j = (b ← getbit self j; Ok ((j =? i) || b)).
Proof.
  unfold setbit, getbit. intros Hset Hj.
  destruct (i <? 0) eqn:Ei; [discriminate |].
  destruct (j <? 0) eqn:Ej; [lia |].
  apply Z.ltb_ge in Ei.
  destruct (bitfield self !! Z.to_nat (i / 8)) as [b |] eqn:Eb; [| discriminate].
  injection Hset as <-. simpl.
  pose proof (Z.mod_pos_bound i 8 ltac:(lia)).
  pose proof (Z.mod_pos_bound j 8 ltac:(lia)).
  pose proof (Z.div_mod i 8 ltac:(lia)).
  pose proof (Z.div_mod j 8 ltac:(lia)).
  assert (0 <= i / 8) by (apply Z.div_pos; lia).
  assert (0 <= j / 8) by (apply Z.div_pos; lia).
  destruct (decide (Z.to_nat (j / 8) = Z.to_nat (i / 8))) as [Heq | Hne].
  - rewrite Heq, list_lookup_insert_eq by (eapply lookup_lt_Some; eauto).
    rewrite Eb. simpl. f_equal.
    rewrite byte_test_set by lia. f_equal.
    destruct (Z.eqb_spec j i) as [-> | Hji].
    + now rewrite N.eqb_refl.
    + apply N.eqb_neq. intros Hmod. apply Hji.
      assert (j mod 8 = i mod 8) by lia.
      assert (j / 8 = i / 8) by lia. lia.
  - rewrite list_lookup_insert_ne by congruence.
    destruct (bitfield self !! Z.to_nat (j / 8)); simpl; [| reflexivity].
    destruct (Z.eqb_spec j i) as [-> | _]; [congruence | reflexivity].
Qed.

Lemma getbit_setbit_same (self self' : t) (i : Z) :
  setbit self i = Ok self' -> getbit self' i = Ok true.
Proof.
  intros Hset.
  assert (0 <= i) as H0.
  { unfold setbit in Hset. destruct (i <? 0) eqn:E; [discriminate | lia]. }
  rewrite (getbit_setbit _ _ _ _ Hset H0).
  unfold setbit in Hset. unfold getbit.
  destruct (i <? 0); [discriminate |].
  destruct (bitfield self !! Z.to_nat (i / 8)); [| discriminate].
  simpl. now rewrite Z.eqb_refl.
Qed.

Lemma getbit_setbit_kept (self self' : t) (i j : Z) :
  setbit self i = Ok self' -> getbit self j = Ok true -> getbit self' j = Ok true.
Proof.
  intros Hset Hget.
  assert (0 <= j) as H0.
  { unfold getbit in Hget. destruct (j <? 0) eqn:E; [discriminate | lia]. }
  rewrite (getbit_setbit _ _ _ _ Hset H0), Hget. simpl.
  now rewrite orb_true_r.
Qed.

End BitFieldFacts.

(** ** Membership *)

Section MembershipFacts.

Import BloomFilter.

Variable mmh3_hash : string -> Z -> Z.

Abbreviation bit_index := (BloomFilter.bit_index mmh3_hash).
Abbreviation add_loop := (BloomFilter.add_loop mmh3_hash).
Abbreviation add := (BloomFilter.add mmh3_hash).
Abbreviation add_all := (BloomFilter.add_all mmh3_hash).
Abbreviation lookup_loop := (BloomFilter.lookup_loop mmh3_hash).
Abbreviation lookup := (BloomFilter.lookup mmh3_hash).

(** The bit at [index] reads as set. *)
Abbreviation is_set self index := (BitField.getbit (filter self) index = Ok true).

Lemma range_bounds (n seed : Z) : In seed (range n) <-> 0 <= seed < n.
Proof.
  unfold range. rewrite in_map_iff. split.
  - intros (k & <- & Hk). apply in_seq in Hk. lia.
  - intros H. exists (Z.to_nat seed). split; [lia |]. apply in_seq. lia.
Qed.

Lemma bit_index_range (self : t) (element : object) (seed : Z) :
  1 <= size self ->
  exists index, bit_index self element seed = Ok index /\ 0 <= index < size self.
Proof.
  intros Hsize. unfold BloomFilter.bit_index, mod_.
  destruct (size self =? 0) eqn:E; [lia |].
  eexists. split; [reflexivity |]. apply Z.mod_pos_bound. lia.
Qed.

(** The position depends on the filter through [size] only. *)
Lemma bit_index_size (self self' : t) (element : object) (seed : Z) :
  size self' = size self ->
  bit_index self' element seed = bit_index self element seed.
Proof. unfold BloomFilter.bit_index. now intros ->. Qed.

(** What [add]'s loop leaves behind: the same parameters, a buffer of the
    same shape, every earlier bit, and the bit of every seed it went over. *)
Lemma add_loop_spec (element : object) (seeds : list Z) :
  forall self : t,
    1 <= size self -> allocated self ->
    exists self',
      add_loop self element seeds = Ok self'
      /\ size self' = size self
      /\ hashcount self' = hashcount self
      /\ allocated self'
      /\ (forall index, is_set self index -> is_set self' index)
      /\ (forall seed, In seed seeds ->
            exists index, bit_index self element seed = Ok index
                          /\ is_set self' index).
Proof.
  induction seeds as [| seed rest IH]; intros self Hsize [Hcount Hsized].
  - exists self. simpl. split; [reflexivity |]. do 3 (split; [auto |]).
    { split; assumption. }
    split; [auto | intros ? []].
  - destruct (bit_index_range self element seed Hsize) as (index & Hindex & Hrange).
    assert (Z.to_nat (index / 8) < length (BitField.bitfield (filter self)))%nat as Hin
      by (apply sized_position; [assumption | lia]).
    destruct (setbit_Ok (filter self) index ltac:(lia) Hin) as (bits & Hset).
    destruct (setbit_shape _ _ _ Hset) as [Hbc Hlen].
    set (next := mk (size self) (hashcount self) bits).
    assert (allocated next) as Hnext.
    { unfold allocated, BitField.sized in *. simpl. rewrite Hbc, Hlen. auto. }
    destruct (IH next Hsize Hnext) as (self' & Hrun & Hs & Hh & Hal & Hkeep & Hnew).
    exists self'.
    split. { simpl. rewrite Hindex. simpl. rewrite Hset. exact Hrun. }
    split; [exact Hs |]. split; [exact Hh |]. split; [exact Hal |]. split.
    + intros j Hj. apply Hkeep. simpl.
      exact (getbit_setbit_kept (filter self) bits index j Hset Hj).
    + intros s [<- | Hs'].
      * exists index. split; [assumption |].
        apply Hkeep. simpl.
        exact (getbit_setbit_same (filter self) bits index Hset).
      * destruct (Hnew s Hs') as (i & Hi & Hbit). exists i. split; [| assumption].
        now rewrite <- Hi.
Qed.

Lemma add_spec (self : t) (element : object) :
  1 <= size self -> allocated self ->
  exists self',
    add self element = Ok self'
    /\ size self' = size self
    /\ hashcount self' = hashcount self
    /\ allocated self'
    /\ (forall index, is_set self index -> is_set self' index)
    /\ (forall seed, 0 <= seed < hashcount self ->
          exists index, bit_index self element seed = Ok index
                        /\ is_set self' index).
Proof.
  intros Hsize Hal.
  destruct (add_loop_spec element (range (hashcount self)) self Hsize Hal)
    as (self' & Hrun & Hs & Hh & Hal' & Hkeep & Hnew).
  exists self'. do 5 (split; [assumption |]).
  intros seed Hseed. apply Hnew. now apply range_bounds.
Qed.

(** Adding more elements keeps the parameters and every bit already set. *)
Lemma add_all_spec (elements : list object) :
  forall self : t,
    1 <= size self -> allocated self ->
    exists self',
      add_all self elements = Ok self'
      /\ size self' = size self
      /\ hashcount self' = hashcount self
      /\ allocated self'
      /\ (forall index, is_set self index -> is_set self' index).
Proof.
  induction elements as [| e rest IH]; intros self Hsize Hal.
  - exists self. simpl. auto.
  - destruct (add_spec self e Hsize Hal) as (mid & Hadd & Hs & Hh & Hal' & Hkeep & _).
    destruct (IH mid ltac:(lia) Hal') as (self' & Hrun & Hs' & Hh' & Hal'' & Hkeep').
    exists self'. simpl. rewrite Hadd. simpl.
    split; [assumption |]. split; [congruence |]. split; [congruence |].
    split; [assumption |]. auto.
Qed.

Lemma add_all_app (xs ys : list object) (self : t) :
  add_all self (xs ++ ys) = (mid ← add_all self xs; add_all mid ys).
Proof.
  revert self. induction xs as [| x xs IH]; intros self; simpl; [reflexivity |].
  destruct (add self x); simpl; auto.
Qed.

(** [lookup]'s loop answers [True] when the bit of every seed is set. *)
Lemma lookup_loop_true (self : t) (element : object) (seeds : list Z) :
  (forall seed, In seed seeds ->
     exists index, bit_index self element seed = Ok index /\ is_set self index) ->
  lookup_loop self element seeds = Ok true.
Proof.
  induction seeds as [| seed rest IH]; intros Hall; simpl; [reflexivity |].
  destruct (Hall seed (or_introl eq_refl)) as (index & Hindex & Hbit).
  rewrite Hindex. simpl. rewrite Hbit. simpl.
  apply IH. intros s Hs. apply Hall. now right.
Qed.

Lemma add_loop_str (a b : object) (seeds : list Z) :
  str a = str b ->
  forall self, add_loop self a seeds = add_loop self b seeds.
Proof.
  intros Hstr. induction seeds as [| seed rest IH]; intros self; simpl; [reflexivity |].
  unfold BloomFilter.bit_index. rewrite Hstr.
  destruct (mod_ _ _); simpl; [| reflexivity].
  destruct (BitField.setbit _ _); simpl; auto.
Qed.

Lemma lookup_loop_str (a b : object) (self : t) (seeds : list Z) :
  str a = str b ->
  lookup_loop self a seeds = lookup_loop self b seeds.
Proof.
  intros Hstr. induction seeds as [| seed rest IH]; simpl; [reflexivity |].
  unfold BloomFilter.bit_index. rewrite Hstr.
  destruct (mod_ _ _); simpl; [| reflexivity].
  destruct (BitField.getbit _ _) as [[|] |]; simpl; auto.
Qed.

(** An element that was added is found, whatever is added after it. *)
Lemma added_is_found (self : t) (e : object) (after : list object) :
  1 <= size self -> allocated self ->
  exists mid self',
    add self e = Ok mid
    /\ add_all mid after = Ok self'
    /\ lookup self' e = Ok true.
Proof.
  intros Hsize Hal.
  destruct (add_spec self e Hsize Hal) as (s2 & H2 & Hs2 & Hh2 & Hal2 & _ & Hnew).
  destruct (add_all_spec after s2 ltac:(lia) Hal2) as (s3 & H3 & Hs3 & Hh3 & Hal3 & Hkeep).
  exists s2, s3. do 2 (split; [assumption |]).
  apply lookup_loop_true. intros seed Hseed.
  apply range_bounds in Hseed.
  destruct (Hnew seed ltac:(lia)) as (index & Hindex & Hbit).
  exists index. split; [| now apply Hkeep].
  rewrite <- Hindex. apply bit_index_size. congruence.
Qed.

(** C8. In-range bit indexing: in a filter with [size >= 1], for every
    element and every seed in [[0, hashcount)], the position that [add] and
    [lookup] compute, the hash reduced modulo [size], exists and lies in
    [[0, size)], whatever integer (negative ones included) the hash
    returns. *)
Theorem index_in_range (self : t) (element : object) (seed : Z) :
  1 <= size self -> 0 <= seed < hashcount self ->
  In seed (range (hashcount self))
  /\ exists index,
       bit_index self element seed = Ok index
       /\ index = mmh3_hash (str element) seed mod size self
       /\ 0 <= index < size self.
Proof.
  intros Hsize Hseed. split; [now apply range_bounds |].
  destruct (bit_index_range self element seed Hsize) as (index & Hindex & Hrange).
  exists index. repeat split; try lia; try assumption.
  unfold BloomFilter.bit_index, mod_ in Hindex.
  destruct (size self =? 0); congruence.
Qed.

(** C1. No false negatives: in a filter with [size >= 1] and
    [hashcount >= 1] whose bit field is the one [__init__] allocated, after
    any elements [before], then [e], then any elements [after] have been
    added, every [add] has returned and [lookup e] returns [True]. *)
Theorem no_false_negatives (self : t) (before after : list object) (e : object) :
  valid self -> allocated self ->
  exists self',
    add_all self (before ++ e :: after) = Ok self'
    /\ lookup self' e = Ok true.
Proof.
  intros [Hsize Hhash] Hal.
  destruct (add_all_spec before self Hsize Hal) as (s1 & H1 & Hs1 & Hh1 & Hal1 & _).
  destruct (added_is_found s1 e after ltac:(lia) Hal1) as (s2 & s3 & H2 & H3 & Hfound).
  exists s3. split; [| exact Hfound].
  rewrite add_all_app, H1. simpl. rewrite H2. simpl. exact H3.
Qed.

(** C4, as the code has it: a filter whose [hashcount] is 0 runs no round
    of [lookup]'s loop, so [lookup] returns [True] for every element,
    whatever the buffer holds. *)
Theorem lookup_without_hashes (self : t) (element : object) :
  hashcount self = 0 -> lookup self element = Ok true.
Proof. unfold BloomFilter.lookup. now intros ->. Qed.

(** C10. Membership depends on the element through [str] only: for values
    [a] and [b] with [str(a) = str(b)], [add(a)] and [add(b)] leave the same
    filter (or raise the same exception), [lookup(a)] and [lookup(b)] agree
    in every filter state, and in a valid filter [lookup(b)] is [True] after
    [add(a)]. *)
Theorem membership_by_str (self : t) (a b : object) :
  str a = str b ->
  add self a = add self b
  /\ lookup self a = lookup self b
  /\ (valid self -> allocated self ->
      exists self', add self a = Ok self' /\ lookup self' b = Ok true).
Proof.
  intros Hstr. split; [apply add_loop_str, Hstr |].
  split; [apply lookup_loop_str, Hstr |].
  intros [Hsize _] Hal.
  destruct (added_is_found self a [] Hsize Hal) as (mid & self' & Hadd & Hrest & Hlook).
  injection Hrest as <-.
  exists mid. split; [assumption |].
  rewrite <- Hlook. symmetry. apply lookup_loop_str, Hstr.
Qed.

End MembershipFacts.

Lemma sample_filter_valid : BloomFilter.valid sample_filter.
Proof. unfold BloomFilter.valid. simpl. lia. Qed.

Lemma sample_filter_allocated : BloomFilter.allocated sample_filter.
Proof. split; reflexivity. Qed.

Lemma index_in_range_witness :
  In 2 (range 3)
  /\ exists index,
       BloomFilter.bit_index sample_hash sample_filter (PyStr "spam") 2 = Ok index
       /\ index = sample_hash (str (PyStr "spam")) 2 mod 10
       /\ 0 <= index < 10.
Proof.
  apply (index_in_range sample_hash sample_filter (PyStr "spam") 2); simpl; lia.
Defined.

Lemma lookup_without_hashes_witness :
  BloomFilter.lookup sample_hash degenerate_filter (PyStr "spam") = Ok true.
Proof.
  apply (lookup_without_hashes sample_hash degenerate_filter); reflexivity.
Defined.

(** With no hash, [lookup] reports membership of an element that was never
    added: the answer is [True], not [False]. *)
Lemma lookup_without_hashes_counterexample :
  BloomFilter.hashcount degenerate_filter = 0
  /\ BloomFilter.lookup sample_hash degenerate_filter (PyStr "spam") = Ok true
  /\ BloomFilter.lookup sample_hash degenerate_filter (PyStr "spam") <> Ok false.
Proof. repeat split. discriminate. Qed.

Lemma membership_by_str_witness :
  BloomFilter.add sample_hash sample_filter (PyInt 1)
  = BloomFilter.add sample_hash sample_filter (PyStr "1")
  /\ BloomFilter.lookup sample_hash sample_filter (PyInt 1)
     = BloomFilter.lookup sample_hash sample_filter (PyStr "1")
  /\ (BloomFilter.valid sample_filter -> BloomFilter.allocated sample_filter ->
      exists self',
        BloomFilter.add sample_hash sample_filter (PyInt 1) = Ok self'
        /\ BloomFilter.lookup sample_hash self' (PyStr "1") = Ok true).
Proof.
  apply (membership_by_str sample_hash sample_filter (PyInt 1) (PyStr "1")).
  reflexivity.
Defined.

(** ** Persistence *)

Section PersistenceFacts.

Import BloomFilter.

Lemma byte_of_Z_value (z : Z) : Z.of_N (Byte.to_N (byte_of_Z z)) = z mod 256.
Proof.
  unfold byte_of_Z.
  pose proof (Z.mod_pos_bound z 256 ltac:(lia)) as Hb.
  destruct (Byte.of_N (Z.to_N (z mod 256))) as [b |] eqn:E.
  - apply Byte.to_of_N in E. rewrite E. lia.
  - apply Byte.of_N_None_iff in E. lia.
Qed.

Lemma length_le_digits (n : nat) (z : Z) : length (le_digits n z) = n.
Proof. revert z. induction n as [| n IH]; intros z; simpl; [| rewrite IH]; reflexivity. Qed.

(** Little-endian digits decode to the integer they were taken from. *)
Lemma from_bytes_le_digits (n : nat) :
  forall z, 0 <= z < 256 ^ Z.of_nat n -> from_bytes (le_digits n z) = z.
Proof.
  induction n as [| n IH]; intros z Hz.
  - simpl in *. lia.
  - cbn [le_digits from_bytes]. rewrite byte_of_Z_value.
    rewrite Nat2Z.inj_succ, Z.pow_succ_r in Hz by lia.
    rewrite IH.
    + pose proof (Z.div_mod z 256 ltac:(lia)). lia.
    + split; [apply Z.div_pos; lia |].
      apply Z.div_lt_upper_bound; lia.
Qed.

Lemma to_bytes_Ok (z : Z) (n : nat) :
  0 <= z < 256 ^ Z.of_nat n -> to_bytes z n = Ok (le_digits n z).
Proof.
  intros Hz. unfold to_bytes.
  destruct (z <? 0) eqn:E1; [lia |].
  destruct (256 ^ Z.of_nat n <=? z) eqn:E2; [lia | reflexivity].
Qed.

(** [lookup] reads [size], [hashcount] and the buffer, nothing else. *)
Lemma lookup_same_state (mmh3_hash : string -> Z -> Z) (self self' : t) (element : object) :
  size self' = size self -> hashcount self' = hashcount self ->
  BitField.bitfield (filter self') = BitField.bitfield (filter self) ->
  lookup mmh3_hash self' element = lookup mmh3_hash self element.
Proof.
  intros Hs Hh Hb. unfold lookup. rewrite Hh.
  induction (range (hashcount self)) as [| seed rest IH]; simpl; [reflexivity |].
  unfold bit_index. rewrite Hs.
  destruct (mod_ _ _) as [index |]; simpl; [| reflexivity].
  unfold BitField.getbit. rewrite Hb.
  destruct (index <? 0); simpl; [reflexivity |].
  destruct (_ !! _) as [b |]; simpl; [| reflexivity].
  destruct (BitField.byte_test _ _); simpl; auto.
Qed.

(** What [save] writes when both header fields fit. *)
Lemma save_Ok (self : t) (path : string) (fs : files) :
  0 <= size self < 2 ^ 128 -> 0 <= hashcount self < 2 ^ 128 ->
  save self path fs
  = Ok (<[path := le_digits 16 (size self) ++ le_digits 16 (hashcount self)
                  ++ BitField.bitfield (filter self)]> fs).
Proof.
  intros Hsize Hhash.
  assert (2 ^ 128 = 256 ^ Z.of_nat 16) as Hpow by reflexivity.
  unfold save.
  rewrite (to_bytes_Ok (size self) 16) by lia.
  rewrite (to_bytes_Ok (hashcount self) 16) by lia.
  reflexivity.
Qed.

(** C2. Round-trip persistence: a filter whose [size] and [hashcount] fit
    the 16-byte fields of the file is saved without error, and loading the
    file into any filter object gives a filter with the same [size], the
    same [hashcount], the same buffer, and the same [lookup] result for every
    element and every hash function. *)
Theorem save_load_roundtrip (self target : t) (path : string) (fs : files) :
  0 <= size self < 2 ^ 128 -> 0 <= hashcount self < 2 ^ 128 ->
  exists fs' loaded,
    save self path fs = Ok fs'
    /\ load target path fs' = Ok loaded
    /\ size loaded = size self
    /\ hashcount loaded = hashcount self
    /\ BitField.bitfield (filter loaded) = BitField.bitfield (filter self)
    /\ forall mmh3_hash element,
         lookup mmh3_hash loaded element = lookup mmh3_hash self element.
Proof.
  intros Hsize Hhash.
  rewrite (save_Ok self path fs Hsize Hhash).
  eexists. eexists. split; [reflexivity |].
  unfold load. rewrite lookup_insert_eq.
  split; [reflexivity |].
  assert (2 ^ 128 = 256 ^ Z.of_nat 16) as Hpow by reflexivity.
  set (hs := le_digits 16 (size self)).
  set (hh := le_digits 16 (hashcount self)).
  set (buffer := BitField.bitfield (filter self)).
  assert (length hs = 16%nat) as Lhs by apply length_le_digits.
  assert (length hh = 16%nat) as Lhh by apply length_le_digits.
  assert (take 16 (hs ++ hh ++ buffer) = hs) as Htake1
    by (rewrite <- Lhs at 1; apply take_app_length).
  assert (drop 16 (hs ++ hh ++ buffer) = hh ++ buffer) as Hdrop1
    by (rewrite <- Lhs at 1; apply drop_app_length).
  assert (take 16 (hh ++ buffer) = hh) as Htake2
    by (rewrite <- Lhh at 1; apply take_app_length).
  assert (drop 32 (hs ++ hh ++ buffer) = buffer) as Hdrop2.
  { change 32%nat with (16 + 16)%nat. rewrite <- drop_drop, Hdrop1.
    rewrite <- Lhh at 1. apply drop_app_length. }
  assert (from_bytes hs = size self) as Hfs
    by (apply from_bytes_le_digits; lia).
  assert (from_bytes hh = hashcount self) as Hfh
    by (apply from_bytes_le_digits; lia).
  cbn [size hashcount filter BitField.bitfield].
  rewrite Htake1, Hdrop1, Htake2, Hdrop2, Hfs, Hfh.
  do 3 (split; [reflexivity |]).
  intros mmh3_hash element. apply lookup_same_state; simpl; auto.
Qed.

End PersistenceFacts.

Lemma save_load_roundtrip_witness :
  exists fs' loaded,
    BloomFilter.save sample_filter "filter.bin" ∅ = Ok fs'
    /\ BloomFilter.load degenerate_filter "filter.bin" fs' = Ok loaded
    /\ BloomFilter.size loaded = 10
    /\ BloomFilter.hashcount loaded = 3
    /\ BitField.bitfield (BloomFilter.filter loaded) = [x00; x00]
    /\ forall mmh3_hash element,
         BloomFilter.lookup mmh3_hash loaded element
         = BloomFilter.lookup mmh3_hash sample_filter element.
Proof.
  apply (save_load_roundtrip sample_filter degenerate_filter "filter.bin" ∅);
    simpl; lia.
Defined.

(** ** Real-number helpers *)

Section RealFacts.

Local Open Scope R_scope.

Lemma ln_2_bounds : / 2 < ln 2 < 1.
Proof.
  split; [exact ln_lt_2 |].
  rewrite <- (ln_exp 1). apply ln_increasing; [lra |].
  pose proof (exp_ineq1 1 ltac:(lra)). lra.
Qed.

Lemma ln_below_tangent (x : R) : 0 < x -> x <> 1 -> ln x < x - 1.
Proof.
  intros Hx Hne. rewrite <- (ln_exp (x - 1)).
  apply ln_increasing; [assumption |].
  pose proof (exp_ineq1 (x - 1) ltac:(lra)). lra.
Qed.

(** Sharper bounds, from [2 < (35/32)^8] and [1/2 < (23/24)^16]. *)
Lemma ln_2_sharp : 2 / 3 < ln 2 < 3 / 4.
Proof.
  split.
  - assert (ln (1 / 2) < ln ((23 / 24) ^ 16)) as H
      by (apply ln_increasing; [lra | simpl; lra]).
    rewrite ln_pow in H by lra.
    replace (1 / 2) with (/ 2) in H by lra. rewrite ln_Rinv in H by lra.
    pose proof (ln_below_tangent (23 / 24) ltac:(lra) ltac:(lra)).
    simpl INR in H. lra.
  - assert (ln 2 < ln ((35 / 32) ^ 8)) as H
      by (apply ln_increasing; [lra | simpl; lra]).
    rewrite ln_pow in H by lra.
    pose proof (ln_below_tangent (35 / 32) ltac:(lra) ltac:(lra)).
    simpl INR in H. lra.
Qed.

Lemma ln_le_mono (x y : R) : 0 < x -> x <= y -> ln x <= ln y.
Proof.
  intros Hx [Hlt | ->]; [| lra]. left. now apply ln_increasing.
Qed.

Lemma ln_half : ln (1 / 2) = - ln 2.
Proof. replace (1 / 2) with (/ 2) by lra. apply ln_Rinv. lra. Qed.

Lemma log_Ok (x : R) : 0 < x -> log x = Ok (ln x).
Proof. intros Hx. unfold log. destruct (Rle_dec x 0); [lra | reflexivity]. Qed.

Lemma log_Raise (x : R) : x <= 0 -> log x = Raise ValueError.
Proof. intros Hx. unfold log. destruct (Rle_dec x 0); [reflexivity | lra]. Qed.

Lemma truediv_Ok (a b : R) : b <> 0 -> truediv a b = Ok (a / b).
Proof. intros Hb. unfold truediv. destruct (Req_dec_T b 0); [contradiction | reflexivity]. Qed.

Lemma pow_Ok (x : R) (n : Z) : (0 <= n)%Z -> pow_ x n = Ok (x ^ Z.to_nat n).
Proof. intros Hn. unfold pow_. destruct (n <? 0)%Z eqn:E; [lia | reflexivity]. Qed.

(** [Int_part] is the floor: the integer [n] with [n <= x < n + 1]. *)
Lemma Int_part_floor (x : R) (n : Z) : IZR n <= x < IZR n + 1 -> Int_part x = n.
Proof. intros H. symmetry. apply Int_part_spec. lra. Qed.

Lemma Int_part_IZR (n : Z) : Int_part (IZR n) = n.
Proof. apply Int_part_floor. lra. Qed.

Lemma Int_part_le (x y : R) : x <= y -> (Int_part x <= Int_part y)%Z.
Proof.
  intros Hxy.
  destruct (base_Int_part x) as [Hx _], (base_Int_part y) as [_ Hy].
  assert (IZR (Int_part x) < IZR (Int_part y + 1)) as H
    by (rewrite plus_IZR; lra).
  apply lt_IZR in H. lia.
Qed.

Lemma int_floor (x : R) (n : Z) : 0 <= x -> IZR n <= x < IZR n + 1 -> int_ x = n.
Proof.
  intros H0 H. unfold int_. destruct (Rle_dec 0 x); [| lra].
  now apply Int_part_floor.
Qed.

Lemma int_nonneg (x : R) : 0 <= x -> (0 <= int_ x)%Z /\ IZR (int_ x) <= x < IZR (int_ x) + 1.
Proof.
  intros H0. unfold int_. destruct (Rle_dec 0 x); [| lra].
  destruct (base_Int_part x) as [Hlo Hhi]. split; [| lra].
  change 0%Z with (Int_part 0%R) at 1 || rewrite <- (Int_part_IZR 0).
  now apply Int_part_le.
Qed.

(** Truncation sends everything strictly between -1 and 1 to 0. *)
Lemma int_small (x : R) : -1 < x < 1 -> int_ x = 0%Z.
Proof.
  intros H. unfold int_. destruct (Rle_dec 0 x).
  - apply Int_part_floor. lra.
  - rewrite (Int_part_floor (- x) 0); [reflexivity | lra].
Qed.

Lemma ceil_spec (x : R) (n : Z) : IZR n - 1 < x <= IZR n -> ceil x = n.
Proof.
  intros H. unfold ceil. rewrite (Int_part_floor (- x) (- n)); [lia |].
  rewrite opp_IZR. lra.
Qed.

(** [math.ceil(n / 8)] on integers is the integer ceiling division. *)
Lemma ceil_eighth (n : Z) : ceil (IZR n / 8) = BitField.ceil_div n 8.
Proof.
  rewrite ceil_div_8. apply ceil_spec.
  pose proof (Z.div_mod (n + 7) 8 ltac:(lia)) as Hdm.
  pose proof (Z.mod_pos_bound (n + 7) 8 ltac:(lia)) as Hb.
  remember ((n + 7) / 8)%Z as q eqn:Eq. remember ((n + 7) mod 8)%Z as r eqn:Er.
  assert (IZR n = 8 * IZR q + IZR r - 7) as ->.
  { rewrite <- mult_IZR, <- plus_IZR, <- minus_IZR. f_equal. lia. }
  assert (0 <= IZR r <= 7) by (split; apply IZR_le; lia).
  lra.
Qed.

Lemma round_half_even_IZR (n : Z) : round_half_even (IZR n) = n.
Proof.
  unfold round_half_even. rewrite Int_part_IZR.
  destruct (Rlt_dec (IZR n - IZR n) (1 / 2)); [reflexivity | lra].
Qed.

Lemma round_half_even_le (x y : R) :
  x <= y -> (round_half_even x <= round_half_even y)%Z.
Proof.
  intros Hxy. pose proof (Int_part_le x y Hxy) as Hfl.
  destruct (base_Int_part x) as [Hx1 Hx2], (base_Int_part y) as [Hy1 Hy2].
  unfold round_half_even.
  destruct (Z.eq_dec (Int_part x) (Int_part y)) as [Heq | Hne].
  - rewrite Heq in *.
    repeat match goal with
           | |- context [Rlt_dec ?a ?b] => destruct (Rlt_dec a b)
           end; try lra; try lia;
      destruct (Z.even (Int_part y)); lia.
  - assert (Int_part x + 1 <= Int_part y)%Z by lia.
    repeat match goal with
           | |- context [Rlt_dec ?a ?b] => destruct (Rlt_dec a b)
           | |- context [Z.even ?a] => destruct (Z.even a)
           end; lia.
Qed.

Lemma round_le (x y : R) (ndigits : nat) : x <= y -> round_ x ndigits <= round_ y ndigits.
Proof.
  intros Hxy. unfold round_.
  assert (0 < 10 ^ ndigits) as Hpos by (apply pow_lt; lra).
  apply Rmult_le_compat_r; [left; now apply Rinv_0_lt_compat |].
  apply IZR_le, round_half_even_le.
  apply Rmult_le_compat_r; lra.
Qed.

(** A number with at most [ndigits] decimals is left as it is. *)
Lemma round_exact (n : Z) (ndigits : nat) :
  round_ (IZR n / 10 ^ ndigits) ndigits = IZR n / 10 ^ ndigits.
Proof.
  unfold round_.
  assert (0 < 10 ^ ndigits) as Hpos by (apply pow_lt; lra).
  replace (IZR n / 10 ^ ndigits * 10 ^ ndigits) with (IZR n) by (field; lra).
  now rewrite round_half_even_IZR.
Qed.

Lemma round_IZR (n : Z) : round_ (IZR n) 4 = IZR n.
Proof.
  replace (IZR n) with (IZR (n * 10000) / 10 ^ 4) at 1 2
    by (rewrite mult_IZR; simpl; field).
  rewrite round_exact. rewrite mult_IZR. simpl. field.
Qed.

(** Powers of a number in [[0, 1]] shrink as the exponent grows. *)
Lemma pow_antitone (x : R) (m n : nat) :
  0 <= x <= 1 -> (m <= n)%nat -> x ^ n <= x ^ m.
Proof.
  intros Hx Hmn. replace n with (m + (n - m))%nat by lia.
  rewrite pow_add.
  pose proof (pow_le x m ltac:(lra)).
  pose proof (pow_incr x 1 (n - m) Hx) as Hk. rewrite pow1 in Hk.
  pose proof (pow_le x (n - m) ltac:(lra)).
  nra.
Qed.

End RealFacts.

(** ** Sizing *)

Section SizingFacts.

Import BloomFilter.
Local Open Scope R_scope.

(** The quotient whose integer part [ideal_size] takes. *)
Abbreviation size_quotient expected fp_rate :=
  (- (IZR expected * ln fp_rate) / ln 2 ^ 2).

Lemma ideal_size_Ok (expected : Z) (fp_rate : R) :
  0 < fp_rate ->
  ideal_size expected fp_rate = Ok (int_ (size_quotient expected fp_rate)).
Proof.
  intros Hfp. unfold ideal_size.
  rewrite (log_Ok fp_rate Hfp), (log_Ok 2) by lra. cbn [mbind result_bind].
  rewrite pow_Ok by lia. cbn [mbind result_bind].
  change (Z.to_nat 2) with 2%nat.
  pose proof ln_2_bounds.
  rewrite truediv_Ok by (apply pow_nonzero; lra).
  reflexivity.
Qed.

Lemma ideal_size_Raise (expected : Z) (fp_rate : R) :
  fp_rate <= 0 -> ideal_size expected fp_rate = Raise ValueError.
Proof. intros Hfp. unfold ideal_size. now rewrite (log_Raise fp_rate Hfp). Qed.

Lemma ideal_hashcount_Ok (self_size expected : Z) :
  expected <> 0%Z ->
  ideal_hashcount self_size expected
  = Ok (int_ (IZR self_size / IZR expected * ln 2)).
Proof.
  intros He. unfold ideal_hashcount.
  rewrite truediv_Ok by (apply not_0_IZR; assumption).
  cbn [mbind result_bind]. now rewrite log_Ok by lra.
Qed.

Lemma size_quotient_nonneg (expected : Z) (fp_rate : R) :
  (0 <= expected)%Z -> 0 < fp_rate <= 1 -> 0 <= size_quotient expected fp_rate.
Proof.
  intros He [Hfp Hle].
  pose proof ln_2_bounds.
  assert (ln fp_rate <= 0) by (rewrite <- ln_1; now apply ln_le_mono).
  assert (0 <= IZR expected) by (now apply IZR_le).
  assert (0 < ln 2 ^ 2) by (apply pow_lt; lra).
  apply Rmult_le_pos; [nra | left; now apply Rinv_0_lt_compat].
Qed.

Lemma size_quotient_half : size_quotient 1 (1 / 2) = / ln 2.
Proof. rewrite ln_half. pose proof ln_2_bounds. field. lra. Qed.

Lemma inv_ln_2_bounds : 1 < / ln 2 < 2.
Proof.
  pose proof ln_2_bounds as [Hlo Hhi].
  assert (ln 2 * / ln 2 = 1) as Hinv by (field; lra).
  assert (0 < / ln 2) as Hpos by (apply Rinv_0_lt_compat; lra).
  split; nra.
Qed.

(** C5, as the code has it: for [expected >= 1] and [0 < fp_rate < 1],
    [ideal_size] returns the quotient [-(expected * ln(fp_rate)) / ln(2)^2]
    truncated toward zero, which is its floor [n] since the quotient is
    positive: [n <= quotient < n + 1].  The ceiling of the formula is [n]
    only when the quotient is an integer, and [n + 1] otherwise. *)
Theorem ideal_size_floor (expected : Z) (fp_rate : R) :
  (1 <= expected)%Z -> 0 < fp_rate < 1 ->
  exists n : Z,
    ideal_size expected fp_rate = Ok n
    /\ (0 <= n)%Z
    /\ IZR n <= size_quotient expected fp_rate < IZR n + 1
    /\ (size_quotient expected fp_rate = IZR n ->
        ceil (size_quotient expected fp_rate) = n)
    /\ (size_quotient expected fp_rate <> IZR n ->
        ceil (size_quotient expected fp_rate) = (n + 1)%Z).
Proof.
  intros He [Hfp0 Hfp1].
  assert (0 <= size_quotient expected fp_rate) as Hq
    by (apply size_quotient_nonneg; [lia | lra]).
  destruct (int_nonneg _ Hq) as [Hn Hfloor].
  exists (int_ (size_quotient expected fp_rate)).
  split; [apply ideal_size_Ok; lra |].
  split; [exact Hn |]. split; [exact Hfloor |]. split.
  - intros Heq. apply ceil_spec. lra.
  - intros Hne. apply ceil_spec. rewrite plus_IZR. lra.
Qed.

(** [ideal_size(1, 0.5)] is 1 where the ceiling of the formula is 2. *)
Lemma ideal_size_floor_counterexample :
  ideal_size 1 (1 / 2) = Ok 1%Z
  /\ ceil (size_quotient 1 (1 / 2)) = 2%Z
  /\ ideal_size 1 (1 / 2) <> Ok (ceil (size_quotient 1 (1 / 2))).
Proof.
  pose proof inv_ln_2_bounds as Hb.
  assert (ideal_size 1 (1 / 2) = Ok 1%Z) as Hsize.
  { rewrite ideal_size_Ok by lra. f_equal. rewrite size_quotient_half.
    apply int_floor; lra. }
  assert (ceil (size_quotient 1 (1 / 2)) = 2%Z) as Hceil.
  { rewrite size_quotient_half. apply ceil_spec. lra. }
  split; [exact Hsize |]. split; [exact Hceil |].
  rewrite Hsize, Hceil. discriminate.
Qed.

Lemma new_Ok (n : Z) :
  (0 <= n)%Z ->
  BitField.new n
  = Ok (BitField.mk n (replicate (Z.to_nat (BitField.ceil_div n 8)) x00)).
Proof.
  intros Hn. unfold BitField.new.
  assert (0 <= BitField.ceil_div n 8)%Z as Hc
    by (rewrite ceil_div_8; apply Z.div_pos; lia).
  destruct (BitField.ceil_div n 8 <? 0)%Z eqn:E; [lia | reflexivity].
Qed.

(** What [__init__] does with parameters it could have refused. *)
Lemma init_log_domain (expected : Z) (fp_rate : R) :
  fp_rate <= 0 -> init expected fp_rate = Raise ValueError.
Proof. intros Hfp. unfold init. now rewrite ideal_size_Raise. Qed.

Lemma init_no_items (fp_rate : R) :
  0 < fp_rate -> init 0 fp_rate = Raise ZeroDivisionError.
Proof.
  intros Hfp. unfold init. rewrite ideal_size_Ok by assumption.
  cbn [mbind result_bind]. unfold ideal_hashcount, truediv.
  destruct (Req_dec_T 0 0); [reflexivity | contradiction].
Qed.

Lemma init_Ok (expected : Z) (fp_rate : R) :
  (1 <= expected)%Z -> 0 < fp_rate <= 1 ->
  exists self,
    init expected fp_rate = Ok self
    /\ size self = int_ (size_quotient expected fp_rate)
    /\ (0 <= size self)%Z
    /\ hashcount self = int_ (IZR (size self) / IZR expected * ln 2)
    /\ (0 <= hashcount self)%Z
    /\ BitField.new (size self) = Ok (filter self).
Proof.
  intros He [Hfp0 Hfp1].
  assert (0 <= size_quotient expected fp_rate) as Hq
    by (apply size_quotient_nonneg; [lia | lra]).
  destruct (int_nonneg _ Hq) as [Hn _].
  set (n := int_ (size_quotient expected fp_rate)) in *.
  assert (0 <= IZR n / IZR expected * ln 2) as Hh.
  { pose proof ln_2_bounds.
    assert (0 <= IZR n) by (now apply IZR_le).
    assert (0 < IZR expected) by (apply IZR_lt; lia).
    apply Rmult_le_pos; [| lra].
    apply Rmult_le_pos; [assumption | left; now apply Rinv_0_lt_compat]. }
  destruct (int_nonneg _ Hh) as [Hk _].
  unfold init. rewrite ideal_size_Ok by assumption. fold n.
  cbn [mbind result_bind].
  rewrite ideal_hashcount_Ok by lia. cbn [mbind result_bind].
  rewrite (new_Ok n Hn). cbn [mbind result_bind].
  eexists. split; [reflexivity |]. cbn [size hashcount filter].
  repeat split; try assumption. now apply new_Ok.
Qed.

(** C3, as the code has it: construction validates nothing and knows no
    [InvalidParameters] error.  It fails where the arithmetic fails: with
    [ValueError] (the domain error of [log]) when [fp_rate <= 0], and with
    [ZeroDivisionError] when [expected_items = 0] and [fp_rate > 0].  For
    [expected_items >= 1] and [0 < fp_rate <= 1] it succeeds with
    [size = int(-(expected_items * ln(fp_rate)) / ln(2)^2) >= 0] and
    [hashcount = int(size / expected_items * ln(2)) >= 0], with no check that
    [hashcount] is at least 1. *)
Theorem init_unvalidated (expected_items : Z) (fp_rate : R) :
  (fp_rate <= 0 -> init expected_items fp_rate = Raise ValueError)
  /\ (expected_items = 0%Z -> 0 < fp_rate ->
      init expected_items fp_rate = Raise ZeroDivisionError)
  /\ ((1 <= expected_items)%Z -> 0 < fp_rate <= 1 ->
      exists self,
        init expected_items fp_rate = Ok self
        /\ size self = int_ (size_quotient expected_items fp_rate)
        /\ (0 <= size self)%Z
        /\ hashcount self = int_ (IZR (size self) / IZR expected_items * ln 2)
        /\ (0 <= hashcount self)%Z
        /\ BitField.new (size self) = Ok (filter self)).
Proof.
  split; [apply init_log_domain |].
  split; [intros ->; apply init_no_items | apply init_Ok].
Qed.

Lemma init_allocated (expected : Z) (fp_rate : R) (self : t) :
  init expected fp_rate = Ok self -> allocated self.
Proof.
  unfold init.
  destruct (ideal_size expected fp_rate) as [n |]; [| discriminate].
  cbn [mbind result_bind].
  destruct (ideal_hashcount n expected) as [k |]; [| discriminate].
  cbn [mbind result_bind].
  destruct (BitField.new n) as [bits |] eqn:E; [| discriminate].
  cbn [mbind result_bind]. intros [= <-].
  apply new_sized in E. exact E.
Qed.

(** [BloomFilter(1, 0.25)]: two bits, one hash. *)
Lemma init_quarter : init 1 (1 / 4) = Ok small_filter.
Proof.
  pose proof ln_2_sharp as [Hlo Hhi].
  assert (ln (1 / 4) = - (2 * ln 2)) as Hln.
  { replace (1 / 4) with (/ (2 * 2)) by lra.
    rewrite ln_Rinv, ln_mult by lra. lra. }
  assert (ln 2 * / ln 2 = 1) as Hinv by (field; lra).
  assert (0 < / ln 2) as Hpos by (apply Rinv_0_lt_compat; lra).
  assert (size_quotient 1 (1 / 4) = 2 * / ln 2) as Hq
    by (rewrite Hln; field; lra).
  unfold init. rewrite ideal_size_Ok by lra.
  rewrite Hq, (int_floor (2 * / ln 2) 2) by nra.
  cbn [mbind result_bind].
  rewrite ideal_hashcount_Ok by lia.
  rewrite (int_floor (2 / 1 * ln 2) 1) by lra.
  reflexivity.
Qed.

(** [BloomFilter(1, 0.5)] is built without complaint and has no hash;
    [BloomFilter(1, 1)] is built without complaint and has no bit either. *)
Lemma init_unvalidated_counterexample :
  init 1 (1 / 2) = Ok degenerate_filter
  /\ hashcount degenerate_filter = 0%Z
  /\ init 1 1 = Ok (mk 0 0 (BitField.mk 0 [])).
Proof.
  pose proof ln_2_bounds as Hln.
  pose proof inv_ln_2_bounds as Hinv.
  split; [| split; [reflexivity |]].
  - unfold init. rewrite ideal_size_Ok by lra.
    rewrite size_quotient_half, (int_floor (/ ln 2) 1) by lra.
    cbn [mbind result_bind].
    rewrite ideal_hashcount_Ok by lia.
    rewrite (int_small (1 / 1 * ln 2)) by lra.
    reflexivity.
  - unfold init. rewrite ideal_size_Ok by lra.
    assert (size_quotient 1 1 = 0) as -> by (rewrite ln_1; field; lra).
    rewrite (int_small 0) by lra.
    cbn [mbind result_bind].
    rewrite ideal_hashcount_Ok by lia.
    rewrite (int_small (0 / 1 * ln 2)) by lra.
    reflexivity.
Qed.

End SizingFacts.

Lemma ideal_size_floor_witness :
  exists n : Z,
    BloomFilter.ideal_size 1 (1 / 2) = Ok n
    /\ 0 <= n
    /\ (IZR n <= - (IZR 1 * ln (1 / 2)) / ln 2 ^ 2 < IZR n + 1)%R
    /\ ((- (IZR 1 * ln (1 / 2)) / ln 2 ^ 2)%R = IZR n ->
        ceil (- (IZR 1 * ln (1 / 2)) / ln 2 ^ 2) = n)
    /\ ((- (IZR 1 * ln (1 / 2)) / ln 2 ^ 2)%R <> IZR n ->
        ceil (- (IZR 1 * ln (1 / 2)) / ln 2 ^ 2) = n + 1).
Proof.
  apply (ideal_size_floor 1 (1 / 2)); [lia | lra].
Defined.

Lemma init_unvalidated_witness :
  exists self,
    BloomFilter.init 1 (1 / 2) = Ok self
    /\ BloomFilter.size self = int_ (- (IZR 1 * ln (1 / 2)) / ln 2 ^ 2)
    /\ 0 <= BloomFilter.size self
    /\ BloomFilter.hashcount self
       = int_ (IZR (BloomFilter.size self) / IZR 1 * ln 2)
    /\ 0 <= BloomFilter.hashcount self
    /\ BitField.new (BloomFilter.size self) = Ok (BloomFilter.filter self).
Proof.
  apply (proj2 (proj2 (init_unvalidated 1 (1 / 2)))); [lia | lra].
Defined.

(** ** Accuracy *)

Section AccuracyFacts.

Import BloomFilter.
Local Open Scope R_scope.

(** The false-positive estimate of the docstring. *)
Abbreviation false_positive size hashcount elements :=
  ((1 - (1 - 1 / IZR size) ^ Z.to_nat (hashcount * elements)) ^ Z.to_nat hashcount).

Lemma accuracy_Ok (size hashcount elements : Z) :
  (1 <= size)%Z -> (1 <= hashcount)%Z -> (0 <= elements)%Z ->
  accuracy size hashcount elements
  = Ok (round_ (100 - false_positive size hashcount elements * 100) 4,
        [[PrintStr "FALSE: "; PrintFloat (false_positive size hashcount elements)]]).
Proof.
  intros Hs Hh He. unfold accuracy.
  assert (1 <= IZR size) by (now apply IZR_le).
  rewrite truediv_Ok by lra. cbn [mbind result_bind].
  rewrite pow_Ok by lia. cbn [mbind result_bind].
  rewrite pow_Ok by lia. reflexivity.
Qed.

(** The share of unset bits kept by one insertion lies in [[0, 1)]. *)
Lemma keep_share_bounds (size : Z) : (1 <= size)%Z -> 0 <= 1 - 1 / IZR size < 1.
Proof.
  intros Hs. assert (1 <= IZR size) as H1 by (now apply IZR_le).
  assert (0 < / IZR size <= 1) as [Hpos Hle].
  { split; [apply Rinv_0_lt_compat; lra |].
    rewrite <- Rinv_1. apply Rinv_le_contravar; lra. }
  unfold Rdiv. lra.
Qed.

Lemma false_positive_mono (size hashcount n1 n2 : Z) :
  (1 <= size)%Z -> (1 <= hashcount)%Z -> (0 <= n1 <= n2)%Z ->
  false_positive size hashcount n1 <= false_positive size hashcount n2.
Proof.
  intros Hs Hh Hn.
  pose proof (keep_share_bounds size Hs) as Hb.
  set (b := 1 - 1 / IZR size) in *.
  assert (Z.to_nat (hashcount * n1) <= Z.to_nat (hashcount * n2))%nat as Hexp by nia.
  pose proof (pow_antitone b _ _ ltac:(lra) Hexp) as Hanti.
  pose proof (pow_le b (Z.to_nat (hashcount * n2)) ltac:(lra)).
  pose proof (pow_incr b 1 (Z.to_nat (hashcount * n1)) ltac:(lra)) as Hle1.
  rewrite pow1 in Hle1.
  apply pow_incr. lra.
Qed.

(** C6, as the code has it: for [size >= 1], [hashcount >= 1] and
    [elements >= 0], [accuracy] returns [100 - fp * 100] rounded to 4
    decimal places, with [fp = (1 - (1 - 1/size)^(hashcount * elements))^hashcount],
    and on its way prints one line, the label ["FALSE: "] and [fp]: the call
    has a side effect on standard output. *)
Theorem accuracy_returns_and_prints (size hashcount elements : Z) :
  (1 <= size)%Z -> (1 <= hashcount)%Z -> (0 <= elements)%Z ->
  exists value out,
    accuracy size hashcount elements = Ok (value, out)
    /\ value = round_ (100 - false_positive size hashcount elements * 100) 4
    /\ out = [[PrintStr "FALSE: "; PrintFloat (false_positive size hashcount elements)]]
    /\ out <> [].
Proof.
  intros Hs Hh He. eexists. eexists.
  split; [apply accuracy_Ok; assumption |].
  repeat split. discriminate.
Qed.

(** C7. Monotonic false-positive growth: for [size >= 1], [hashcount >= 1]
    and element counts [0 <= n1 < n2], both calls of [accuracy] return, and
    the accuracy for [n1] is at least the accuracy for [n2]. *)
Theorem accuracy_monotone (size hashcount n1 n2 : Z) :
  (1 <= size)%Z -> (1 <= hashcount)%Z -> (0 <= n1 < n2)%Z ->
  exists a1 out1 a2 out2,
    accuracy size hashcount n1 = Ok (a1, out1)
    /\ accuracy size hashcount n2 = Ok (a2, out2)
    /\ a1 >= a2.
Proof.
  intros Hs Hh Hn.
  do 4 eexists.
  split; [apply accuracy_Ok; lia |].
  split; [apply accuracy_Ok; lia |].
  apply Rle_ge, round_le.
  pose proof (false_positive_mono size hashcount n1 n2 Hs Hh ltac:(lia)).
  lra.
Qed.

(** [accuracy(2, 1, 1)] and [accuracy(2, 1, 2)], evaluated. *)
Lemma accuracy_2_1_1 :
  accuracy 2 1 1 = Ok (50, [[PrintStr "FALSE: "; PrintFloat (1 / 2)]]).
Proof.
  rewrite accuracy_Ok by lia.
  change (Z.to_nat (1 * 1)) with 1%nat. change (Z.to_nat 1) with 1%nat.
  replace ((1 - (1 - 1 / 2) ^ 1) ^ 1) with (1 / 2) by (simpl; field).
  replace (100 - 1 / 2 * 100) with (IZR 50) by lra.
  now rewrite round_IZR.
Qed.

Lemma accuracy_2_1_2 :
  accuracy 2 1 2 = Ok (25, [[PrintStr "FALSE: "; PrintFloat (3 / 4)]]).
Proof.
  rewrite accuracy_Ok by lia.
  change (Z.to_nat (1 * 2)) with 2%nat. change (Z.to_nat 1) with 1%nat.
  replace ((1 - (1 - 1 / 2) ^ 2) ^ 1) with (3 / 4) by (simpl; field).
  replace (100 - 3 / 4 * 100) with (IZR 25) by lra.
  now rewrite round_IZR.
Qed.

End AccuracyFacts.

Lemma accuracy_returns_and_prints_witness :
  exists value out,
    BloomFilter.accuracy 2 1 1 = Ok (value, out)
    /\ value = round_ (100 - (1 - (1 - 1 / IZR 2) ^ Z.to_nat (1 * 1)) ^ Z.to_nat 1 * 100) 4
    /\ out = [[PrintStr "FALSE: ";
               PrintFloat ((1 - (1 - 1 / IZR 2) ^ Z.to_nat (1 * 1)) ^ Z.to_nat 1)]]
    /\ out <> [].
Proof.
  apply (accuracy_returns_and_prints 2 1 1); lia.
Defined.

Lemma accuracy_monotone_witness :
  exists a1 out1 a2 out2,
    BloomFilter.accuracy 2 1 1 = Ok (a1, out1)
    /\ BloomFilter.accuracy 2 1 2 = Ok (a2, out2)
    /\ (a1 >= a2)%R.
Proof.
  apply (accuracy_monotone 2 1 1 2); lia.
Defined.

(** ** Human-readable size *)

Section SizeFacts.

Import BloomFilter.
Local Open Scope R_scope.

Lemma bytesize_ceil_div (self : t) : bytesize self = BitField.ceil_div (size self) 8.
Proof. apply ceil_eighth. Qed.

Lemma ln_pow_2 (k : Z) : (0 <= k)%Z -> ln (IZR (2 ^ k)) = IZR k * ln 2.
Proof.
  intros Hk. rewrite <- (Z2Nat.id k Hk) at 1.
  rewrite <- pow_IZR, ln_pow by lra.
  now rewrite INR_IZR_INZ, Z2Nat.id.
Qed.

Lemma log_base_2_Ok (x : R) : 0 < x -> log_base x 2 = Ok (ln x / ln 2).
Proof.
  intros Hx. unfold log_base. rewrite (log_Ok x Hx), (log_Ok 2) by lra.
  cbn [mbind result_bind]. pose proof ln_2_bounds. apply truediv_Ok. lra.
Qed.

(** The magnitude is chosen from [size / 8], the byte count before it is
    rounded up: [order] is [k] exactly on [8 * 1024^k <= size < 8 * 1024^(k+1)]. *)
Lemma order_Ok (self : t) (k : Z) :
  (0 <= k)%Z -> (8 * 2 ^ (10 * k) <= size self < 8 * 2 ^ (10 * (k + 1)))%Z ->
  order self = Ok k.
Proof.
  intros Hk [Hlo Hhi].
  assert (0 < 2 ^ (10 * k))%Z as Hpos by (apply Z.pow_pos_nonneg; lia).
  unfold order. destruct (size self =? 0)%Z eqn:E; [lia |].
  apply IZR_le in Hlo. apply IZR_lt in Hhi. apply IZR_lt in Hpos.
  rewrite mult_IZR in Hlo, Hhi.
  set (x := IZR (size self) / 8).
  assert (IZR (2 ^ (10 * k)) <= x < IZR (2 ^ (10 * (k + 1)))) as [Hx1 Hx2]
    by (unfold x; lra).
  rewrite log_base_2_Ok by lra. cbn [mbind result_bind]. f_equal.
  pose proof ln_2_bounds as [Hl1 Hl2].
  assert (ln (IZR (2 ^ (10 * k))) <= ln x) as Hln1 by (apply ln_le_mono; lra).
  assert (ln x < ln (IZR (2 ^ (10 * (k + 1))))) as Hln2 by (apply ln_increasing; lra).
  rewrite ln_pow_2 in Hln1, Hln2 by lia.
  rewrite mult_IZR in Hln1, Hln2. rewrite plus_IZR in Hln2.
  assert (0 <= IZR k) by (now apply IZR_le).
  assert (ln x / ln 2 * ln 2 = ln x) as Hq by (field; lra).
  set (l := ln x / ln 2) in *.
  assert (10 * IZR k <= l < 10 * (IZR k + 1)) by (split; nra).
  apply int_floor; lra.
Qed.

Lemma order_small (self : t) : (1 <= size self < 8)%Z -> order self = Ok 0%Z.
Proof.
  intros [Hlo Hhi].
  unfold order. destruct (size self =? 0)%Z eqn:E; [lia |].
  apply IZR_le in Hlo. apply IZR_lt in Hhi.
  set (x := IZR (size self) / 8).
  assert (/ 8 <= x < 1) as [Hx1 Hx2] by (unfold x; lra).
  rewrite log_base_2_Ok by lra. cbn [mbind result_bind]. f_equal.
  pose proof ln_2_bounds as [Hl1 Hl2].
  assert (ln (/ 8) <= ln x) as Hln1 by (apply ln_le_mono; lra).
  assert (ln x < ln 1) as Hln2 by (apply ln_increasing; lra).
  rewrite ln_1 in Hln2. rewrite ln_Rinv in Hln1 by lra.
  change 8 with (IZR (2 ^ 3)) in Hln1. rewrite ln_pow_2 in Hln1 by lia.
  assert (ln x / ln 2 * ln 2 = ln x) as Hq by (field; lra).
  set (l := ln x / ln 2) in *.
  assert (-3 <= l < 0) by (split; nra).
  apply int_small; lra.
Qed.

(** What [bytesize_human] returns once the magnitude is known. *)
Lemma bytesize_human_Ok (self : t) (k : Z) (name : string) :
  order self = Ok k -> (0 <= k)%Z -> getitem suffix k = Ok name ->
  bytesize_human self
  = Ok (round_ (IZR (bytesize self) / IZR (2 ^ (10 * k))) 4, name).
Proof.
  intros Horder Hk Hname. unfold bytesize_human.
  rewrite Horder. cbn [mbind result_bind].
  unfold lshift. destruct (k * 10 <? 0)%Z eqn:E; [lia |].
  cbn [mbind result_bind]. rewrite Z.shiftl_1_l.
  replace (k * 10)%Z with (10 * k)%Z by lia.
  assert (0 < 2 ^ (10 * k))%Z as Hpos by (apply Z.pow_pos_nonneg; lia).
  apply IZR_lt in Hpos.
  rewrite truediv_Ok by lra. cbn [mbind result_bind].
  rewrite Hname. reflexivity.
Qed.

(** C9, where the code departs from it: a filter of 8185 bits takes
    [ceil(8185 / 8) = 1024] bytes, and [bytesize_human] renders it as 1024
    with the suffix ["bytes"], because the magnitude is computed from
    [8185 / 8 < 1024]; at 8192 bits the same 1024 bytes are rendered as 1
    with the suffix ["Kb"]. *)
Theorem bytesize_human_rounds_late (hashcount : Z) (bits : BitField.t) :
  bytesize (mk 8185 hashcount bits) = 1024%Z
  /\ bytesize_human (mk 8185 hashcount bits) = Ok (1024, "bytes"%string)
  /\ bytesize (mk 8192 hashcount bits) = 1024%Z
  /\ bytesize_human (mk 8192 hashcount bits) = Ok (1, "Kb"%string).
Proof.
  assert (bytesize (mk 8185 hashcount bits) = 1024%Z) as B1
    by (rewrite bytesize_ceil_div; reflexivity).
  assert (bytesize (mk 8192 hashcount bits) = 1024%Z) as B2
    by (rewrite bytesize_ceil_div; reflexivity).
  split; [exact B1 |]. split; [| split; [exact B2 |]].
  - rewrite (bytesize_human_Ok _ 0 "bytes");
      [| apply order_Ok; simpl; lia | lia | reflexivity].
    rewrite B1. f_equal. f_equal.
    change (2 ^ (10 * 0))%Z with 1%Z.
    replace (1024 / 1) with (IZR 1024) by lra.
    apply round_IZR.
  - rewrite (bytesize_human_Ok _ 1 "Kb");
      [| apply order_Ok; simpl; lia | lia | reflexivity].
    rewrite B2. f_equal. f_equal.
    change (2 ^ (10 * 1))%Z with 1024%Z.
    replace (1024 / 1024) with (IZR 1) by lra.
    apply round_IZR.
Qed.

End SizeFacts.

(** ** A constructed filter, end to end *)

Lemma small_filter_valid : BloomFilter.valid small_filter.
Proof. unfold BloomFilter.valid. simpl. lia. Qed.

Lemma no_false_negatives_witness :
  BloomFilter.init 1 (1 / 4) = Ok small_filter
  /\ exists self',
       BloomFilter.add_all sample_hash small_filter
         ([PyStr "eggs"; PyInt 7] ++ PyStr "spam" :: [PyNone]) = Ok self'
       /\ BloomFilter.lookup sample_hash self' (PyStr "spam") = Ok true.
Proof.
  split; [exact init_quarter |].
  apply (no_false_negatives sample_hash small_filter);
    [exact small_filter_valid | exact (init_allocated _ _ _ init_quarter)].
Defined.

(** * Further properties of the code *)

(** ** Membership: what [add] keeps and what [lookup] reads *)

Section MembershipMore.

Import BloomFilter.

Variable mmh3_hash : string -> Z -> Z.

Abbreviation bit_index := (BloomFilter.bit_index mmh3_hash).
Abbreviation add_loop := (BloomFilter.add_loop mmh3_hash).
Abbreviation add := (BloomFilter.add mmh3_hash).
Abbreviation lookup_loop := (BloomFilter.lookup_loop mmh3_hash).
Abbreviation lookup := (BloomFilter.lookup mmh3_hash).
Abbreviation is_set self index := (BitField.getbit (filter self) index = Ok true).

(** Whatever a returning run of [add]'s loop was given, it leaves [size] and
    [hashcount] alone, clears no bit, and has set the bit of each seed. *)
Lemma add_loop_frame (element : object) (seeds : list Z) :
  forall self self' : t,
    add_loop self element seeds = Ok self' ->
    size self' = size self
    /\ hashcount self' = hashcount self
    /\ (forall index, is_set self index -> is_set self' index)
    /\ (forall seed, In seed seeds ->
          exists index, bit_index self element seed = Ok index
                        /\ is_set self' index).
Proof.
  induction seeds as [| seed rest IH]; intros self self' Hrun.
  - injection Hrun as <-. repeat split; auto. intros ? [].
  - cbn [BloomFilter.add_loop] in Hrun.
    destruct (bit_index self element seed) as [index |] eqn:Hindex; [| discriminate].
    cbn [mbind result_bind] in Hrun.
    destruct (BitField.setbit (filter self) index) as [bits |] eqn:Hset; [| discriminate].
    cbn [mbind result_bind] in Hrun.
    destruct (IH _ _ Hrun) as (Hs & Hh & Hkeep & Hnew).
    cbn [size hashcount filter] in *.
    split; [exact Hs |]. split; [exact Hh |]. split.
    + intros j Hj. apply Hkeep.
      exact (getbit_setbit_kept (filter self) bits index j Hset Hj).
    + intros s [<- | Hin].
      * exists index. split; [exact Hindex |]. apply Hkeep.
        exact (getbit_setbit_same (filter self) bits index Hset).
      * destruct (Hnew s Hin) as (i & Hi & Hbit). exists i. split; [| exact Hbit].
        rewrite <- Hi. unfold BloomFilter.bit_index. reflexivity.
Qed.

(** X1. [add] mutates the bit field only: when it returns, [size] and
    [hashcount] are what they were. *)
Theorem add_keeps_parameters (self self' : t) (element : object) :
  add self element = Ok self' ->
  size self' = size self /\ hashcount self' = hashcount self.
Proof.
  intros Hadd. destruct (add_loop_frame _ _ _ _ Hadd) as (Hs & Hh & _).
  split; assumption.
Qed.

Lemma range_pos (n : Z) : 1 <= n -> exists rest, range n = 0 :: rest.
Proof.
  intros Hn. unfold range.
  destruct (Z.to_nat n) as [| m] eqn:E; [lia |].
  simpl. eauto.
Qed.

(** X2. A filter of size 0 with at least one hash cannot reduce a hash:
    [add] and [lookup] both raise [ZeroDivisionError]. *)
Theorem zero_size_raises (self : t) (element : object) :
  size self = 0 -> 1 <= hashcount self ->
  add self element = Raise ZeroDivisionError
  /\ lookup self element = Raise ZeroDivisionError.
Proof.
  intros Hsize Hhash.
  destruct (range_pos _ Hhash) as (rest & Hrange).
  unfold BloomFilter.add, BloomFilter.lookup. rewrite Hrange.
  cbn [BloomFilter.add_loop BloomFilter.lookup_loop].
  unfold BloomFilter.bit_index, mod_. rewrite Hsize.
  split; reflexivity.
Qed.

Lemma getbit_Ok (bits : BitField.t) (index : Z) :
  0 <= index -> (Z.to_nat (index / 8) < length (BitField.bitfield bits))%nat ->
  exists b, BitField.getbit bits index = Ok b.
Proof.
  intros H0 Hlt. unfold BitField.getbit.
  destruct (index <? 0) eqn:E; [lia |].
  destruct (lookup_lt_is_Some_2 _ _ Hlt) as [b ->]. eauto.
Qed.

Lemma lookup_loop_total (self : t) (element : object) (seeds : list Z) :
  1 <= size self -> allocated self ->
  exists answer,
    lookup_loop self element seeds = Ok answer
    /\ (answer = true <->
        forall seed, In seed seeds ->
          is_set self (mmh3_hash (str element) seed mod size self)).
Proof.
  intros Hsize [Hcount Hsized].
  induction seeds as [| seed rest IH].
  - exists true. split; [reflexivity |]. split; [intros _ ? [] | reflexivity].
  - pose proof (Z.mod_pos_bound (mmh3_hash (str element) seed) (size self) ltac:(lia))
      as Hrange.
    set (index := mmh3_hash (str element) seed mod size self) in *.
    assert (bit_index self element seed = Ok index) as Hindex.
    { unfold BloomFilter.bit_index, mod_.
      destruct (size self =? 0) eqn:E; [lia | reflexivity]. }
    assert (Z.to_nat (index / 8) < length (BitField.bitfield (filter self)))%nat as Hin
      by (apply sized_position; [assumption | lia]).
    destruct (getbit_Ok (filter self) index ltac:(lia) Hin) as (bit & Hbit).
    cbn [BloomFilter.lookup_loop]. rewrite Hindex. cbn [mbind result_bind].
    rewrite Hbit. cbn [mbind result_bind].
    destruct bit; cbn [negb].
    + destruct IH as (answer & Hrun & Hiff). exists answer.
      split; [exact Hrun |]. rewrite Hiff. split.
      * intros Hall s [<- | Hs]; [exact Hbit | now apply Hall].
      * intros Hall s Hs. apply Hall. now right.
    + exists false. split; [reflexivity |]. split; [discriminate |].
      intros Hall. specialize (Hall seed (or_introl eq_refl)).
      fold index in Hall. congruence.
Qed.

(** X3. On a filter with [size >= 1] whose buffer has [ceil(size / 8)]
    bytes, [lookup] never raises, and it answers [True] exactly when the bit
    at [hash(str(element), seed) % size] is set for every seed in
    [[0, hashcount)]. *)
Theorem lookup_answer (self : t) (element : object) :
  1 <= size self -> allocated self ->
  exists answer,
    lookup self element = Ok answer
    /\ (answer = true <->
        forall seed, 0 <= seed < hashcount self ->
          is_set self (mmh3_hash (str element) seed mod size self)).
Proof.
  intros Hsize Hal.
  destruct (lookup_loop_total self element (range (hashcount self)) Hsize Hal)
    as (answer & Hrun & Hiff).
  exists answer. split; [exact Hrun |]. rewrite Hiff.
  split; intros Hall seed Hseed; apply Hall; now apply range_bounds.
Qed.

Lemma lookup_loop_true_inv (self : t) (element : object) (seeds : list Z) :
  lookup_loop self element seeds = Ok true ->
  forall seed, In seed seeds ->
    exists index, bit_index self element seed = Ok index /\ is_set self index.
Proof.
  induction seeds as [| seed rest IH]; intros Hrun s Hs; [destruct Hs |].
  cbn [BloomFilter.lookup_loop] in Hrun.
  destruct (bit_index self element seed) as [index |] eqn:Hindex; [| discriminate].
  cbn [mbind result_bind] in Hrun.
  destruct (BitField.getbit (filter self) index) as [[|] |] eqn:Hbit;
    cbn [mbind result_bind negb] in Hrun; try discriminate.
  destruct Hs as [<- | Hs]; [eauto | now apply IH].
Qed.

(** X5. Answers only ever turn to [True]: an element that [lookup] reports
    as present is still reported as present after any further [add]. *)
Theorem lookup_stays_true (self self' : t) (element other : object) :
  lookup self element = Ok true ->
  add self other = Ok self' ->
  lookup self' element = Ok true.
Proof.
  intros Hlook Hadd.
  destruct (add_loop_frame _ _ _ _ Hadd) as (Hs & Hh & Hkeep & _).
  unfold BloomFilter.lookup. rewrite Hh.
  apply lookup_loop_true. intros seed Hseed.
  destruct (lookup_loop_true_inv _ _ _ Hlook seed Hseed) as (index & Hindex & Hbit).
  exists index. split; [| now apply Hkeep].
  rewrite <- Hindex. now apply bit_index_size.
Qed.

End MembershipMore.

(** ** The buffer as a set of bits *)

Section BufferMore.

Import BitField.

Lemma byte_test_table (b : byte) :
  forallb (fun k => Bool.eqb (byte_test b k) (N.testbit (Byte.to_N b) k))
    [0; 1; 2; 3; 4; 5; 6; 7]%N = true.
Proof. destruct b; vm_compute; reflexivity. Qed.

Lemma byte_test_testbit (b : byte) (k : N) :
  (k < 8)%N -> byte_test b k = N.testbit (Byte.to_N b) k.
Proof.
  intros Hk. pose proof (byte_test_table b) as Htab.
  rewrite forallb_forall in Htab.
  apply Bool.eqb_prop, Htab, position_In, Hk.
Qed.

(** Two bytes with the same eight bits are the same byte. *)
Lemma byte_ext (b b' : byte) :
  (forall k, (k < 8)%N -> byte_test b k = byte_test b' k) -> b = b'.
Proof.
  intros Hbits.
  assert (Byte.to_N b = Byte.to_N b') as Heq.
  { apply N.bits_inj. intros k.
    destruct (N.lt_ge_cases k 8) as [Hk | Hk].
    - rewrite <- !byte_test_testbit by assumption. now apply Hbits.
    - assert (forall x : byte, N.testbit (Byte.to_N x) k = false) as Hhigh.
      { intros x. pose proof (Byte.to_N_bounded x) as Hx.
        destruct (N.eq_dec (Byte.to_N x) 0%N) as [-> | Hnz];
          [apply N.bits_0 |].
        apply N.bits_above_log2.
        assert (N.log2 (Byte.to_N x) < 8)%N
          by (apply N.log2_lt_pow2; [lia | simpl; lia]).
        lia. }
      now rewrite !Hhigh. }
  pose proof (Byte.of_to_N b) as H1. pose proof (Byte.of_to_N b') as H2.
  rewrite Heq in H1. congruence.
Qed.

(** Two bit fields of the same shape that read the same at every position
    are the same. *)
Lemma bitfield_ext (x y : t) :
  bit_count x = bit_count y ->
  length (bitfield x) = length (bitfield y) ->
  (forall index, 0 <= index -> getbit x index = getbit y index) ->
  x = y.
Proof.
  destruct x as [cx lx], y as [cy ly]. cbn [bit_count bitfield].
  intros -> Hlen Hget. f_equal.
  apply list_eq. intros i.
  destruct (lx !! i) as [b |] eqn:Eb.
  - assert (i < length ly)%nat as Hi
      by (rewrite <- Hlen; eapply lookup_lt_Some; eauto).
    destruct (lookup_lt_is_Some_2 _ _ Hi) as [b' Eb'].
    rewrite Eb'. f_equal. apply byte_ext. intros k Hk.
    specialize (Hget (8 * Z.of_nat i + Z.of_N k) ltac:(lia)).
    unfold getbit in Hget. cbn [bitfield] in Hget.
    destruct (8 * Z.of_nat i + Z.of_N k <? 0) eqn:E; [lia |].
    assert ((8 * Z.of_nat i + Z.of_N k) / 8 = Z.of_nat i) as Hdiv.
    { symmetry. apply (Z.div_unique _ 8 _ (Z.of_N k)); lia. }
    assert ((8 * Z.of_nat i + Z.of_N k) mod 8 = Z.of_N k) as Hmod.
    { symmetry. apply (Z.mod_unique _ 8 (Z.of_nat i)); lia. }
    rewrite Hdiv, Hmod, Nat2Z.id, N2Z.id, Eb, Eb' in Hget. congruence.
  - symmetry. apply lookup_ge_None. rewrite <- Hlen. now apply lookup_ge_None.
Qed.

Lemma setbit_Ok_inv (self self' : t) (index : Z) :
  setbit self index = Ok self' ->
  0 <= index /\ (Z.to_nat (index / 8) < length (bitfield self))%nat.
Proof.
  unfold setbit. destruct (index <? 0) eqn:E; [discriminate |].
  destruct (bitfield self !! Z.to_nat (index / 8)) eqn:Eb; [| discriminate].
  intros _. split; [lia |]. eapply lookup_lt_Some; eauto.
Qed.

End BufferMore.

(** ** Membership: order and repetition of insertions *)

Section InsertionOrder.

Import BloomFilter.

Variable mmh3_hash : string -> Z -> Z.

Abbreviation bit_index := (BloomFilter.bit_index mmh3_hash).
Abbreviation add_loop := (BloomFilter.add_loop mmh3_hash).
Abbreviation add := (BloomFilter.add mmh3_hash).

(** Whether [index] is the position of [element] for one of [seeds]. *)
Abbreviation hit self element seeds index :=
  (existsb (fun seed => index =? mmh3_hash (str element) seed mod size self) seeds).

(** The bits after a returning run of [add]'s loop: the old ones and the
    positions of the seeds; the shape of the bit field is untouched. *)
Lemma add_loop_bits (element : object) (seeds : list Z) :
  forall self self' : t,
    add_loop self element seeds = Ok self' ->
    BitField.bit_count (filter self') = BitField.bit_count (filter self)
    /\ length (BitField.bitfield (filter self'))
       = length (BitField.bitfield (filter self))
    /\ forall index, 0 <= index ->
         BitField.getbit (filter self') index
         = (b ← BitField.getbit (filter self) index;
            Ok (hit self element seeds index || b)).
Proof.
  induction seeds as [| seed rest IH]; intros self self' Hrun.
  - injection Hrun as <-. do 2 (split; [reflexivity |]).
    intros index _. cbn [existsb orb].
    destruct (BitField.getbit (filter self) index); reflexivity.
  - cbn [BloomFilter.add_loop] in Hrun.
    destruct (bit_index self element seed) as [i |] eqn:Hindex; [| discriminate].
    cbn [mbind result_bind] in Hrun.
    destruct (BitField.setbit (filter self) i) as [bits |] eqn:Hset; [| discriminate].
    cbn [mbind result_bind] in Hrun.
    destruct (IH _ _ Hrun) as (Hbc & Hlen & Hget).
    destruct (setbit_shape _ _ _ Hset) as [Hbc' Hlen'].
    cbn [size hashcount filter] in *.
    split; [congruence |]. split; [congruence |].
    intros index Hpos. rewrite (Hget index Hpos).
    rewrite (getbit_setbit _ _ _ _ Hset Hpos).
    assert (i = mmh3_hash (str element) seed mod size self) as Hi.
    { unfold BloomFilter.bit_index, mod_ in Hindex.
      destruct (size self =? 0); congruence. }
    destruct (BitField.getbit (filter self) index) as [b |];
      cbn [mbind result_bind existsb]; [| reflexivity].
    rewrite <- Hi. f_equal.
    destruct (index =? i), (hit self element rest index), b; reflexivity.
Qed.

(** A run of the loop that returns on one filter returns on any filter of
    the same size with a buffer of the same length. *)
Lemma add_loop_transfer (element : object) (seeds : list Z) :
  forall self self' other : t,
    add_loop self element seeds = Ok self' ->
    size other = size self ->
    length (BitField.bitfield (filter other))
    = length (BitField.bitfield (filter self)) ->
    exists other', add_loop other element seeds = Ok other'.
Proof.
  induction seeds as [| seed rest IH]; intros self self' other Hrun Hsize Hlen.
  - exists other. reflexivity.
  - cbn [BloomFilter.add_loop] in Hrun |- *.
    unfold BloomFilter.bit_index in Hrun |- *. rewrite Hsize.
    destruct (mod_ _ (size self)) as [i |]; [| discriminate].
    cbn [mbind result_bind] in Hrun |- *.
    destruct (BitField.setbit (filter self) i) as [bits |] eqn:Hset; [| discriminate].
    cbn [mbind result_bind] in Hrun.
    destruct (setbit_Ok_inv _ _ _ Hset) as [Hpos Hin].
    destruct (setbit_Ok (filter other) i Hpos ltac:(lia)) as (bits' & Hset').
    rewrite Hset'. cbn [mbind result_bind].
    apply (IH _ _ _ Hrun); cbn [size filter]; [congruence |].
    destruct (setbit_shape _ _ _ Hset) as [_ ->].
    destruct (setbit_shape _ _ _ Hset') as [_ ->]. exact Hlen.
Qed.

Lemma add_loop_parameters (element : object) (seeds : list Z) :
  forall self self' : t,
    add_loop self element seeds = Ok self' ->
    size self' = size self /\ hashcount self' = hashcount self.
Proof.
  intros self self' Hrun.
  destruct (add_loop_frame mmh3_hash _ _ _ _ Hrun) as (Hs & Hh & _). now split.
Qed.

Lemma filter_ext (x y : t) :
  size x = size y -> hashcount x = hashcount y -> filter x = filter y -> x = y.
Proof. destruct x, y. cbn. now intros -> -> ->. Qed.

(** X6. [add] is idempotent: adding an element a second time returns and
    leaves the filter exactly as the first [add] left it. *)
Theorem add_idempotent (self self' : t) (element : object) :
  add self element = Ok self' -> add self' element = Ok self'.
Proof.
  intros Hadd.
  destruct (add_loop_parameters _ _ _ _ Hadd) as [Hs Hh].
  destruct (add_loop_bits _ _ _ _ Hadd) as (Hbc & Hlen & Hget).
  destruct (add_loop_transfer _ _ self self' self' Hadd Hs Hlen) as (again & Hagain).
  unfold BloomFilter.add. rewrite Hh, Hagain. f_equal.
  destruct (add_loop_parameters _ _ _ _ Hagain) as [Hs2 Hh2].
  destruct (add_loop_bits _ _ _ _ Hagain) as (Hbc2 & Hlen2 & Hget2).
  apply filter_ext; [assumption | assumption |].
  apply bitfield_ext; [assumption | assumption |].
  intros index Hpos. rewrite (Hget2 index Hpos), (Hget index Hpos), Hs.
  destruct (BitField.getbit (filter self) index) as [b |];
    cbn [mbind result_bind]; [| reflexivity].
  f_equal. now destruct (hit self element (range (hashcount self)) index), b.
Qed.

(** X7. The order of insertion does not matter: if adding [a] and then [b]
    returns, so does adding [b] and then [a], and both leave the same
    filter. *)
Theorem add_commutes (self after_a after_ab : t) (a b : object) :
  add self a = Ok after_a -> add after_a b = Ok after_ab ->
  exists after_b,
    add self b = Ok after_b /\ add after_b a = Ok after_ab.
Proof.
  intros Ha Hab.
  destruct (add_loop_parameters _ _ _ _ Ha) as [Hs1 Hh1].
  destruct (add_loop_bits _ _ _ _ Ha) as (Hbc1 & Hlen1 & Hget1).
  destruct (add_loop_parameters _ _ _ _ Hab) as [Hs2 Hh2].
  destruct (add_loop_bits _ _ _ _ Hab) as (Hbc2 & Hlen2 & Hget2).
  destruct (add_loop_transfer _ _ after_a after_ab self Hab
              ltac:(congruence) ltac:(congruence)) as (after_b & Hb).
  rewrite Hh1 in Hb.
  destruct (add_loop_parameters _ _ _ _ Hb) as [Hs3 Hh3].
  destruct (add_loop_bits _ _ _ _ Hb) as (Hbc3 & Hlen3 & Hget3).
  destruct (add_loop_transfer _ _ self after_a after_b Ha
              ltac:(congruence) ltac:(congruence)) as (after_ba & Hba).
  rewrite <- Hh3 in Hba.
  destruct (add_loop_parameters _ _ _ _ Hba) as [Hs4 Hh4].
  destruct (add_loop_bits _ _ _ _ Hba) as (Hbc4 & Hlen4 & Hget4).
  exists after_b. split; [exact Hb |].
  unfold BloomFilter.add. rewrite Hba. f_equal.
  apply filter_ext; [congruence | congruence |].
  apply bitfield_ext; [congruence | congruence |].
  intros index Hpos.
  rewrite (Hget4 index Hpos), (Hget3 index Hpos).
  rewrite (Hget2 index Hpos), (Hget1 index Hpos).
  rewrite Hs1, Hs3, Hh1, Hh3.
  destruct (BitField.getbit (filter self) index) as [bit |];
    cbn [mbind result_bind]; [| reflexivity].
  f_equal.
  destruct (hit self a (range (hashcount self)) index),
    (hit self b (range (hashcount self)) index), bit; reflexivity.
Qed.

(** X4. A filter as [__init__] built it, with [size >= 1] and
    [hashcount >= 1], contains nothing: [lookup] returns [False] for every
    element. *)
Theorem fresh_filter_is_empty (expected_items : Z) (fp_rate : R) (self : t)
    (element : object) :
  init expected_items fp_rate = Ok self -> valid self ->
  BloomFilter.lookup mmh3_hash self element = Ok false.
Proof.
  intros Hinit [Hsize Hhash].
  assert (BitField.new (size self) = Ok (filter self)) as Hnew.
  { unfold init in Hinit.
    destruct (ideal_size expected_items fp_rate) as [n |]; [| discriminate].
    cbn [mbind result_bind] in Hinit.
    destruct (ideal_hashcount n expected_items) as [k |]; [| discriminate].
    cbn [mbind result_bind] in Hinit.
    destruct (BitField.new n) as [bits |] eqn:E; [| discriminate].
    cbn [mbind result_bind] in Hinit. injection Hinit as <-. exact E. }
  destruct (new_sized _ _ Hnew) as [Hcount Hsized].
  rewrite new_Ok in Hnew by lia. injection Hnew as Hfilter.
  destruct (range_pos _ Hhash) as (rest & Hrange).
  unfold BloomFilter.lookup. rewrite Hrange. cbn [BloomFilter.lookup_loop].
  destruct (bit_index_range mmh3_hash self element 0 Hsize) as (index & Hindex & Hin).
  rewrite Hindex. cbn [mbind result_bind].
  assert (Z.to_nat (index / 8) < length (BitField.bitfield (filter self)))%nat as Hlt
    by (apply sized_position; [assumption | lia]).
  unfold BitField.getbit. destruct (index <? 0) eqn:E; [lia |].
  rewrite <- Hfilter in Hlt |- *. cbn [BitField.bitfield] in Hlt |- *.
  rewrite length_replicate in Hlt.
  rewrite lookup_replicate_2 by assumption.
  reflexivity.
Qed.

End InsertionOrder.

(** ** Persistence: the file format and what [load] accepts *)

Section PersistenceMore.

Import BloomFilter.

Lemma from_bytes_bound (bs : list byte) :
  0 <= from_bytes bs < 256 ^ Z.of_nat (length bs).
Proof.
  induction bs as [| b rest IH]; [simpl; lia |].
  cbn [from_bytes length]. rewrite Nat2Z.inj_succ, Z.pow_succ_r by lia.
  pose proof (Byte.to_N_bounded b). lia.
Qed.

(** Decoding and encoding again gives the bytes back. *)
Lemma le_digits_from_bytes (bs : list byte) :
  le_digits (length bs) (from_bytes bs) = bs.
Proof.
  induction bs as [| b rest IH]; [reflexivity |].
  cbn [from_bytes length le_digits].
  pose proof (Byte.to_N_bounded b) as Hb.
  assert ((Z.of_N (Byte.to_N b) + 256 * from_bytes rest) mod 256
          = Z.of_N (Byte.to_N b)) as Hmod
    by (symmetry; apply (Z.mod_unique _ 256 (from_bytes rest)); lia).
  assert ((Z.of_N (Byte.to_N b) + 256 * from_bytes rest) / 256
          = from_bytes rest) as Hdiv
    by (symmetry; apply (Z.div_unique _ 256 _ (Z.of_N (Byte.to_N b))); lia).
  rewrite Hdiv, IH. f_equal.
  unfold byte_of_Z. rewrite Hmod, N2Z.id, Byte.of_to_N. reflexivity.
Qed.

(** The three fields of a file that starts with two 16-byte headers. *)
Lemma layout_fields (hs hh buffer : list byte) :
  length hs = 16%nat -> length hh = 16%nat ->
  take 16 (hs ++ hh ++ buffer) = hs
  /\ take 16 (drop 16 (hs ++ hh ++ buffer)) = hh
  /\ drop 32 (hs ++ hh ++ buffer) = buffer.
Proof.
  intros Lhs Lhh.
  assert (drop 16 (hs ++ hh ++ buffer) = hh ++ buffer) as Hdrop
    by (rewrite <- Lhs at 1; apply drop_app_length).
  split; [rewrite <- Lhs at 1; apply take_app_length |].
  split; [rewrite Hdrop; rewrite <- Lhh at 1; apply take_app_length |].
  change 32%nat with (16 + 16)%nat. rewrite <- drop_drop, Hdrop.
  rewrite <- Lhh at 1. apply drop_app_length.
Qed.

Lemma save_Ok_inv (self : t) (path : string) (fs fs' : files) :
  save self path fs = Ok fs' ->
  0 <= size self < 2 ^ 128 /\ 0 <= hashcount self < 2 ^ 128.
Proof.
  assert (2 ^ 128 = 256 ^ Z.of_nat 16) as Hpow by reflexivity.
  unfold save, to_bytes.
  destruct (size self <? 0) eqn:E1; [discriminate |].
  destruct (256 ^ Z.of_nat 16 <=? size self) eqn:E2; [discriminate |].
  cbn [orb mbind result_bind].
  destruct (hashcount self <? 0) eqn:E3; [discriminate |].
  destruct (256 ^ Z.of_nat 16 <=? hashcount self) eqn:E4; [discriminate |].
  intros _. rewrite Hpow.
  apply Z.ltb_ge in E1, E3. apply Z.leb_gt in E2, E4. lia.
Qed.

(** X8. [save] raises [OverflowError] exactly when [size] or [hashcount]
    does not fit an unsigned 16-byte field, that is, is negative or at
    least [2^128]. *)
Theorem save_overflow (self : t) (path : string) (fs : files) :
  save self path fs = Raise OverflowError
  <-> ~ (0 <= size self < 2 ^ 128 /\ 0 <= hashcount self < 2 ^ 128).
Proof.
  split.
  - intros Hraise Hrange.
    rewrite (save_Ok self path fs) in Hraise by tauto. discriminate.
  - intros Hout.
    assert (2 ^ 128 = 256 ^ Z.of_nat 16) as Hpow by reflexivity.
    unfold save, to_bytes.
    destruct (size self <? 0) eqn:E1; [reflexivity |].
    destruct (256 ^ Z.of_nat 16 <=? size self) eqn:E2; [reflexivity |].
    cbn [orb mbind result_bind].
    destruct (hashcount self <? 0) eqn:E3; [reflexivity |].
    destruct (256 ^ Z.of_nat 16 <=? hashcount self) eqn:E4; [reflexivity |].
    exfalso. apply Hout. rewrite Hpow.
    apply Z.ltb_ge in E1, E3. apply Z.leb_gt in E2, E4. lia.
Qed.

(** X9. The file format: when [save] returns, the file at [path] is the
    buffer preceded by 32 bytes, of which the first 16 decode
    (little-endian) to [size] and the next 16 to [hashcount]; no other
    file is touched. *)
Theorem save_layout (self : t) (path : string) (fs fs' : files) :
  save self path fs = Ok fs' ->
  exists content,
    fs' !! path = Some content
    /\ length content = (32 + length (BitField.bitfield (filter self)))%nat
    /\ from_bytes (take 16 content) = size self
    /\ from_bytes (take 16 (drop 16 content)) = hashcount self
    /\ drop 32 content = BitField.bitfield (filter self)
    /\ forall other, other <> path -> fs' !! other = fs !! other.
Proof.
  intros Hsave.
  destruct (save_Ok_inv _ _ _ _ Hsave) as [Hsize Hhash].
  rewrite (save_Ok self path fs Hsize Hhash) in Hsave. injection Hsave as <-.
  assert (2 ^ 128 = 256 ^ Z.of_nat 16) as Hpow by reflexivity.
  destruct (layout_fields (le_digits 16 (size self)) (le_digits 16 (hashcount self))
              (BitField.bitfield (filter self))
              (length_le_digits _ _) (length_le_digits _ _))
    as (H1 & H2 & H3).
  exists (le_digits 16 (size self) ++ le_digits 16 (hashcount self)
          ++ BitField.bitfield (filter self)).
  split; [apply lookup_insert_eq |].
  split; [rewrite !length_app, !length_le_digits; lia |].
  rewrite H1, H2, H3.
  split; [apply from_bytes_le_digits; lia |].
  split; [apply from_bytes_le_digits; lia |].
  split; [reflexivity |].
  intros other Hne. now apply lookup_insert_ne.
Qed.

(** X10. [load] checks nothing: a file of at most 16 bytes loads into a
    filter with [hashcount = 0] and an empty buffer, and that filter
    answers [True] to every [lookup]. *)
Theorem load_short_file (target : t) (path : string) (fs : files)
    (content : list byte) :
  fs !! path = Some content -> (length content <= 16)%nat ->
  exists loaded,
    load target path fs = Ok loaded
    /\ size loaded = from_bytes content
    /\ hashcount loaded = 0
    /\ BitField.bitfield (filter loaded) = []
    /\ forall mmh3_hash element, lookup mmh3_hash loaded element = Ok true.
Proof.
  intros Hfile Hlen. unfold load. rewrite Hfile.
  eexists. split; [reflexivity |]. cbn [size hashcount filter BitField.bitfield].
  rewrite (take_ge content 16) by lia.
  rewrite (drop_ge content 16), (drop_ge content 32) by lia.
  repeat split.
Qed.

(** X11. Reading a file and writing it back: every existing file loads,
    the loaded filter can always be saved, and for a file of at least 32
    bytes the saved file is byte for byte the one that was loaded. *)
Theorem load_save_roundtrip (target : t) (path path' : string) (fs : files)
    (content : list byte) :
  fs !! path = Some content ->
  exists loaded fs' content',
    load target path fs = Ok loaded
    /\ save loaded path' fs = Ok fs'
    /\ fs' !! path' = Some content'
    /\ ((32 <= length content)%nat -> content' = content).
Proof.
  intros Hfile. unfold load. rewrite Hfile.
  set (hs := take 16 content). set (hh := take 16 (drop 16 content)).
  assert (2 ^ 128 = 256 ^ Z.of_nat 16) as Hpow by reflexivity.
  assert (length hs <= 16)%nat as Lhs by (unfold hs; rewrite length_take; lia).
  assert (length hh <= 16)%nat as Lhh by (unfold hh; rewrite length_take; lia).
  assert (forall bs : list byte, (length bs <= 16)%nat -> 0 <= from_bytes bs < 2 ^ 128)
    as Hfit.
  { intros bs Hbs. pose proof (from_bytes_bound bs) as [H0 H1].
    split; [exact H0 |]. rewrite Hpow.
    eapply Z.lt_le_trans; [exact H1 |]. apply Z.pow_le_mono_r; lia. }
  eexists. eexists. eexists.
  split; [reflexivity |].
  split; [apply save_Ok; cbn [size hashcount]; auto |].
  split; [apply lookup_insert_eq |].
  cbn [size hashcount filter BitField.bitfield].
  intros Hlong.
  assert (length hs = 16%nat) as Ehs by (unfold hs; rewrite length_take; lia).
  assert (length hh = 16%nat) as Ehh
    by (unfold hh; rewrite length_take, length_drop; lia).
  rewrite <- Ehs at 1. rewrite le_digits_from_bytes.
  rewrite <- Ehh at 1. rewrite le_digits_from_bytes.
  unfold hs, hh.
  rewrite <- (take_drop 16 content) at 4.
  f_equal.
  rewrite <- (take_drop 16 (drop 16 content)) at 2.
  f_equal. now rewrite drop_drop.
Qed.

(** What was saved is what is loaded (used below). *)
Lemma load_saved (self target : t) (path : string) (fs : files) :
  0 <= size self < 2 ^ 128 -> 0 <= hashcount self < 2 ^ 128 ->
  exists fs' loaded,
    save self path fs = Ok fs'
    /\ load target path fs' = Ok loaded
    /\ size loaded = size self
    /\ hashcount loaded = hashcount self
    /\ BitField.bitfield (filter loaded) = BitField.bitfield (filter self).
Proof.
  intros Hsize Hhash.
  assert (2 ^ 128 = 256 ^ Z.of_nat 16) as Hpow by reflexivity.
  destruct (layout_fields (le_digits 16 (size self)) (le_digits 16 (hashcount self))
              (BitField.bitfield (filter self))
              (length_le_digits _ _) (length_le_digits _ _))
    as (H1 & H2 & H3).
  eexists. eexists. split; [apply save_Ok; assumption |].
  unfold load. rewrite lookup_insert_eq.
  split; [reflexivity |]. cbn [size hashcount filter BitField.bitfield].
  rewrite H1, H2, H3.
  split; [apply from_bytes_le_digits; lia |].
  split; [apply from_bytes_le_digits; lia | reflexivity].
Qed.

(** X12. Membership survives persistence: an element added to a valid
    filter is found by [lookup] in the filter loaded from the file that
    [save] wrote afterwards. *)
Theorem added_found_after_reload (mmh3_hash : string -> Z -> Z)
    (self target : t) (element : object) (path : string) (fs : files) :
  valid self -> allocated self ->
  size self < 2 ^ 128 -> hashcount self < 2 ^ 128 ->
  exists added fs' loaded,
    add mmh3_hash self element = Ok added
    /\ save added path fs = Ok fs'
    /\ load target path fs' = Ok loaded
    /\ lookup mmh3_hash loaded element = Ok true.
Proof.
  intros [Hsize Hhash] Hal Hs128 Hh128.
  destruct (added_is_found mmh3_hash self element [] Hsize Hal)
    as (added & same & Hadd & Hrest & Hfound).
  injection Hrest as <-.
  destruct (add_loop_parameters mmh3_hash _ _ _ _ Hadd) as [Hs Hh].
  destruct (load_saved added target path fs ltac:(lia) ltac:(lia))
    as (fs' & loaded & Hsave & Hload & Hls & Hlh & Hlb).
  exists added, fs', loaded. do 3 (split; [assumption |]).
  rewrite <- Hfound. now apply lookup_same_state.
Qed.

End PersistenceMore.

(** ** Sizing: how the parameters move, and when a filter is valid *)

Section SizingMore.

Import BloomFilter.
Local Open Scope R_scope.

Abbreviation size_quotient expected fp_rate :=
  (- (IZR expected * ln fp_rate) / ln 2 ^ 2).

Lemma int_le (x y : R) : 0 <= x <= y -> (int_ x <= int_ y)%Z.
Proof.
  intros [H0 Hxy]. unfold int_.
  destruct (Rle_dec 0 x); [| lra]. destruct (Rle_dec 0 y); [| lra].
  now apply Int_part_le.
Qed.

Lemma int_IZR (n : Z) : (0 <= n)%Z -> int_ (IZR n) = n.
Proof. intros Hn. apply int_floor; [now apply IZR_le | lra]. Qed.

(** X13. More expected items, or a smaller false-positive rate, never
    give a smaller filter: [ideal_size] is monotone in [expected] and
    antitone in [fp_rate] on [expected >= 0], [0 < fp_rate <= 1]. *)
Theorem ideal_size_monotone (e1 e2 : Z) (fp1 fp2 : R) :
  (0 <= e1 <= e2)%Z -> 0 < fp2 <= fp1 -> fp1 <= 1 ->
  exists n1 n2,
    ideal_size e1 fp1 = Ok n1 /\ ideal_size e2 fp2 = Ok n2 /\ (n1 <= n2)%Z.
Proof.
  intros [He1 He12] [Hfp2 Hfp21] Hfp1.
  exists (int_ (size_quotient e1 fp1)), (int_ (size_quotient e2 fp2)).
  split; [apply ideal_size_Ok; lra |].
  split; [apply ideal_size_Ok; lra |].
  apply int_le. split; [apply size_quotient_nonneg; [lia | lra] |].
  pose proof ln_2_bounds.
  assert (0 < ln 2 ^ 2) as Hsq by (apply pow_lt; lra).
  assert (ln fp2 <= ln fp1) by (apply ln_le_mono; lra).
  assert (ln fp1 <= 0) by (rewrite <- ln_1; apply ln_le_mono; lra).
  assert (0 <= IZR e1 <= IZR e2) by (split; apply IZR_le; lia).
  apply Rmult_le_compat_r; [left; now apply Rinv_0_lt_compat |].
  nra.
Qed.

(** X14. A sufficient condition for a usable filter: with
    [expected_items >= 1] and [0 < fp_rate <= 0.25], [__init__] returns a
    filter with [size >= 2] and [hashcount >= 1] whose buffer has
    [ceil(size / 8)] bytes. *)
Theorem init_valid (expected_items : Z) (fp_rate : R) :
  (1 <= expected_items)%Z -> 0 < fp_rate <= 1 / 4 ->
  exists self,
    init expected_items fp_rate = Ok self
    /\ (2 <= size self)%Z
    /\ valid self
    /\ allocated self.
Proof.
  intros He [Hfp0 Hfp1].
  destruct (init_Ok expected_items fp_rate He ltac:(lra))
    as (self & Hinit & Hsize & Hs0 & Hhash & Hh0 & Hnew).
  exists self. split; [exact Hinit |].
  pose proof ln_2_sharp as [Hlo Hhi].
  assert (1 <= IZR expected_items) as HE by (apply IZR_le; lia).
  assert (ln fp_rate <= - (2 * ln 2)) as Hln.
  { replace (- (2 * ln 2)) with (ln (/ (2 * 2)))
      by (rewrite ln_Rinv, ln_mult by lra; lra).
    apply ln_le_mono; lra. }
  assert (size_quotient expected_items fp_rate * (ln 2 * ln 2)
          = - (IZR expected_items * ln fp_rate)) as Hq by (field; lra).
  assert (0 <= IZR (size self)) as HS0 by (now apply IZR_le).
  assert (IZR (size self) / IZR expected_items * ln 2 * IZR expected_items
          = IZR (size self) * ln 2) as Hx by (field; lra).
  remember (size_quotient expected_items fp_rate) as q eqn:Eq' in *.
  remember (IZR (size self)) as S eqn:ES in *.
  remember (ln 2) as L eqn:EL in *.
  remember (IZR expected_items) as E eqn:EE in *.
  remember (ln fp_rate) as l eqn:El in *.
  assert (E * l <= E * - (2 * L)) as Hmul
    by (apply Rmult_le_compat_l; lra).
  assert (2 * E <= q * L) as HqL.
  { apply (Rmult_le_reg_r L); [lra |]. lra. }
  assert (0 <= q) as Hq0 by nra.
  destruct (int_nonneg q Hq0) as [_ [Hfl1 Hfl2]].
  rewrite <- Hsize, <- ES in Hfl1, Hfl2.
  assert (2 <= size self)%Z as Hsize2.
  { rewrite Hsize. rewrite <- (int_IZR 2) at 1 by lia.
    apply int_le. nra. }
  assert (q * L - L < S * L) as HSL0
    by (replace (q * L - L) with ((q - 1) * L) by ring;
        apply Rmult_lt_compat_r; lra).
  assert (E <= S * L) as HSL by lra.
  assert (1 <= hashcount self)%Z as Hhash1.
  { rewrite Hhash. rewrite <- (int_IZR 1) at 1 by lia.
    apply int_le. split; [lra |].
    apply (Rmult_le_reg_r E); [lra |]. lra. }
  split; [exact Hsize2 |]. split; [split; lia |].
  apply new_sized in Hnew. exact Hnew.
Qed.

(** X15. A constructed filter never has more hashes than bits: for
    [expected_items >= 1] and [0 < fp_rate <= 1],
    [0 <= hashcount <= size]. *)
Theorem hashcount_at_most_size (expected_items : Z) (fp_rate : R) (self : t) :
  (1 <= expected_items)%Z -> 0 < fp_rate <= 1 ->
  init expected_items fp_rate = Ok self ->
  (0 <= hashcount self <= size self)%Z.
Proof.
  intros He Hfp Hinit.
  destruct (init_Ok expected_items fp_rate He Hfp)
    as (self' & Hinit' & Hsize & Hs0 & Hhash & Hh0 & _).
  rewrite Hinit in Hinit'. injection Hinit' as <-.
  split; [exact Hh0 |].
  rewrite Hhash. rewrite <- (int_IZR (size self)) at 2 by assumption.
  pose proof ln_2_bounds as [Hlo Hhi].
  assert (0 <= IZR (size self)) as HS by (now apply IZR_le).
  assert (1 <= IZR expected_items) as HE by (apply IZR_le; lia).
  set (S := IZR (size self)) in *. set (E := IZR expected_items) in *.
  assert (S / E * E = S) as Hx by (field; lra).
  assert (0 <= S / E) by (apply Rmult_le_pos; [lra | left; apply Rinv_0_lt_compat; lra]).
  apply int_le. split; nra.
Qed.

End SizingMore.

(** ** Accuracy: its range and its extremes *)

Section AccuracyMore.

Import BloomFilter.
Local Open Scope R_scope.

Abbreviation false_positive size hashcount elements :=
  ((1 - (1 - 1 / IZR size) ^ Z.to_nat (hashcount * elements)) ^ Z.to_nat hashcount).

Lemma false_positive_bounds (size hashcount elements : Z) :
  (1 <= size)%Z -> 0 <= false_positive size hashcount elements <= 1.
Proof.
  intros Hs. pose proof (keep_share_bounds size Hs) as Hb.
  set (b := 1 - 1 / IZR size) in *.
  pose proof (pow_le b (Z.to_nat (hashcount * elements)) ltac:(lra)).
  pose proof (pow_incr b 1 (Z.to_nat (hashcount * elements)) ltac:(lra)) as Hle.
  rewrite pow1 in Hle.
  split; [apply pow_le; lra |].
  pose proof (pow_incr (1 - b ^ Z.to_nat (hashcount * elements)) 1
                (Z.to_nat hashcount) ltac:(lra)) as Htop.
  rewrite pow1 in Htop. exact Htop.
Qed.

(** X16. [accuracy] is a percentage: for [size >= 1], [hashcount >= 1] and
    [elements >= 0] it returns a value between 0 and 100. *)
Theorem accuracy_is_percentage (size hashcount elements : Z) :
  (1 <= size)%Z -> (1 <= hashcount)%Z -> (0 <= elements)%Z ->
  exists value out,
    accuracy size hashcount elements = Ok (value, out) /\ 0 <= value <= 100.
Proof.
  intros Hs Hh He. do 2 eexists.
  split; [apply accuracy_Ok; assumption |].
  pose proof (false_positive_bounds size hashcount elements Hs) as [H0 H1].
  split.
  - apply Rle_trans with (round_ (IZR 0) 4);
      [rewrite round_IZR; lra | apply round_le; lra].
  - apply Rle_trans with (round_ (IZR 100) 4);
      [apply round_le; lra | rewrite round_IZR; lra].
Qed.

(** X17. The extremes: a filter holding no element is rated 100, and a
    filter of a single bit holding at least one element is rated 0. *)
Theorem accuracy_extremes (size hashcount elements : Z) :
  (1 <= size)%Z -> (1 <= hashcount)%Z -> (1 <= elements)%Z ->
  (exists out, accuracy size hashcount 0 = Ok (100, out))
  /\ (exists out, accuracy 1 hashcount elements = Ok (0, out)).
Proof.
  intros Hs Hh He.
  assert (0 < Z.to_nat hashcount)%nat as Hhn by lia.
  split; eexists.
  - rewrite accuracy_Ok by lia. f_equal. f_equal.
    rewrite Z.mul_0_r. change (Z.to_nat 0) with 0%nat. rewrite pow_O.
    replace (1 - 1) with 0 by lra. rewrite pow_i by assumption.
    replace (100 - 0 * 100) with (IZR 100) by lra. apply round_IZR.
  - rewrite accuracy_Ok by lia. f_equal. f_equal.
    replace (1 - 1 / 1) with 0 by lra.
    rewrite pow_i by nia.
    replace (1 - 0) with 1 by lra. rewrite pow1.
    replace (100 - 1 * 100) with (IZR 0) by lra. apply round_IZR.
Qed.

End AccuracyMore.

(** ** Byte size and its rendering *)

Section SizeMore.

Import BloomFilter.
Local Open Scope R_scope.

Lemma bytesize_bounds (self : t) :
  (size self <= 8 * bytesize self < size self + 8)%Z.
Proof.
  rewrite bytesize_ceil_div, ceil_div_8.
  pose proof (Z.div_mod (size self + 7) 8 ltac:(lia)).
  pose proof (Z.mod_pos_bound (size self + 7) 8 ltac:(lia)).
  lia.
Qed.


(** [bytesize_human] once [order] has returned a magnitude. *)
Lemma bytesize_human_steps (self : t) (k : Z) :
  order self = Ok k -> (0 <= k)%Z ->
  bytesize_human self
  = (name ← getitem suffix k;
     Ok (round_ (IZR (bytesize self) / IZR (2 ^ (10 * k))) 4, name)).
Proof.
  intros Horder Hk. unfold bytesize_human.
  rewrite Horder. cbn [mbind result_bind].
  unfold lshift. destruct (k * 10 <? 0)%Z eqn:E; [lia |].
  cbn [mbind result_bind]. rewrite Z.shiftl_1_l.
  replace (k * 10)%Z with (10 * k)%Z by lia.
  assert (0 < 2 ^ (10 * k))%Z as Hpos by (apply Z.pow_pos_nonneg; lia).
  apply IZR_lt in Hpos.
  rewrite truediv_Ok by lra. reflexivity.
Qed.


Lemma suffix_Raise (k : Z) : (9 <= k)%Z -> getitem suffix k = @Raise string IndexError.
Proof.
  intros Hk. unfold getitem.
  change (Z.of_nat (length suffix)) with 9%Z.
  assert ((k <? 0)%Z = false) as -> by (apply Z.ltb_ge; lia).
  assert ((9 <=? k)%Z = true) as -> by (apply Z.leb_le; lia).
  cbv zeta. now rewrite orb_true_r.
Qed.


(** X20. Below one byte: a filter of size 0 is rendered as 0 ["bytes"],
    and a filter of 1 to 7 bits as 1 ["bytes"]. *)
Theorem bytesize_human_below_a_byte (self : t) :
  (size self = 0%Z -> bytesize_human self = Ok (0, "bytes"%string))
  /\ ((1 <= size self < 8)%Z -> bytesize_human self = Ok (1, "bytes"%string)).
Proof.
  split.
  - intros Hzero.
    assert (order self = Ok 0%Z) as Horder
      by (unfold order; rewrite Hzero; reflexivity).
    rewrite (bytesize_human_steps self 0 Horder) by lia.
    cbn [getitem mbind result_bind]. change (getitem suffix 0) with (@Ok string "bytes").
    cbn [mbind result_bind].
    assert (bytesize self = 0%Z) as -> by (rewrite bytesize_ceil_div, Hzero; reflexivity).
    change (2 ^ (10 * 0))%Z with 1%Z.
    replace (0 / 1) with (IZR 0) by lra. now rewrite round_IZR.
  - intros Hsmall.
    rewrite (bytesize_human_steps self 0 (order_small self Hsmall)) by lia.
    change (getitem suffix 0) with (@Ok string "bytes").
    cbn [mbind result_bind].
    assert (bytesize self = 1%Z) as ->.
    { pose proof (bytesize_bounds self) as Hb. lia. }
    change (2 ^ (10 * 0))%Z with 1%Z.
    replace (1 / 1) with (IZR 1) by lra. now rewrite round_IZR.
Qed.

(** X21. Where [bytesize_human] raises: a negative size is outside the
    domain of [log] ([ValueError]), and from [8 * 1024^9] bits on the list
    of suffixes is exhausted ([IndexError]). *)
Theorem bytesize_human_raises (self : t) :
  ((size self < 0)%Z -> bytesize_human self = Raise ValueError)
  /\ ((8 * 2 ^ 90 <= size self)%Z -> bytesize_human self = Raise IndexError).
Proof.
  split.
  - intros Hneg. unfold bytesize_human, order.
    destruct (size self =? 0)%Z eqn:E; [lia |].
    unfold log_base.
    assert (IZR (size self) / 8 <= 0) as Hx
      by (apply IZR_lt in Hneg; lra).
    rewrite (log_Raise _ Hx). reflexivity.
  - intros Hbig.
    set (m := (size self / 8)%Z).
    pose proof (Z.div_mod (size self) 8 ltac:(lia)) as Hdm.
    pose proof (Z.mod_pos_bound (size self) 8 ltac:(lia)) as Hmb.
    assert (2 ^ 90 <= m)%Z as Hm by (unfold m; lia).
    assert (0 < m)%Z as Hm0 by lia.
    pose proof (Z.log2_spec m Hm0) as [Hg1 Hg2].
    assert (90 <= Z.log2 m)%Z as Hg by (apply Z.log2_le_pow2; lia).
    set (g := Z.log2 m) in *. set (k := (g / 10)%Z).
    pose proof (Z.div_mod g 10 ltac:(lia)) as Hkd.
    pose proof (Z.mod_pos_bound g 10 ltac:(lia)) as Hkm.
    assert (9 <= k)%Z as Hk by (unfold k; lia).
    assert (2 ^ (10 * k) <= 2 ^ g)%Z as Hp1
      by (apply Z.pow_le_mono_r; unfold k; lia).
    assert (2 ^ Z.succ g <= 2 ^ (10 * (k + 1)))%Z as Hp2
      by (apply Z.pow_le_mono_r; unfold k; lia).
    assert (order self = Ok k) as Horder.
    { apply order_Ok; [lia |]. unfold m in *. lia. }
    rewrite (bytesize_human_steps self k Horder) by lia.
    rewrite (suffix_Raise k Hk). reflexivity.
Qed.

End SizeMore.

(** ** The further properties on concrete inputs *)

Lemma add_keeps_parameters_witness :
  BloomFilter.size (BloomFilter.mk 10 3 (BitField.mk 10 [x1c; x00])) = 10
  /\ BloomFilter.hashcount (BloomFilter.mk 10 3 (BitField.mk 10 [x1c; x00])) = 3.
Proof.
  apply (add_keeps_parameters sample_hash sample_filter _ (PyStr "spam")).
  reflexivity.
Defined.

Lemma zero_size_raises_witness :
  BloomFilter.add sample_hash (BloomFilter.mk 0 1 (BitField.mk 0 [])) PyNone
  = Raise ZeroDivisionError
  /\ BloomFilter.lookup sample_hash (BloomFilter.mk 0 1 (BitField.mk 0 [])) PyNone
     = Raise ZeroDivisionError.
Proof.
  apply (zero_size_raises sample_hash (BloomFilter.mk 0 1 (BitField.mk 0 [])) PyNone);
    simpl; lia.
Defined.

Lemma lookup_answer_witness :
  exists answer,
    BloomFilter.lookup sample_hash sample_filter (PyStr "spam") = Ok answer
    /\ (answer = true <->
        forall seed, 0 <= seed < 3 ->
          BitField.getbit (BitField.mk 10 [x00; x00])
            (sample_hash "spam" seed mod 10) = Ok true).
Proof.
  apply (lookup_answer sample_hash sample_filter (PyStr "spam"));
    [simpl; lia | exact sample_filter_allocated].
Defined.

Lemma fresh_filter_is_empty_witness :
  BloomFilter.lookup sample_hash small_filter (PyStr "spam") = Ok false.
Proof.
  apply (fresh_filter_is_empty sample_hash 1 (1 / 4) small_filter (PyStr "spam"));
    [exact init_quarter | exact small_filter_valid].
Defined.

Lemma lookup_stays_true_witness :
  BloomFilter.lookup sample_hash
    (BloomFilter.mk 10 3 (BitField.mk 10 [xfc; x00])) (PyStr "spam") = Ok true.
Proof.
  apply (lookup_stays_true sample_hash
           (BloomFilter.mk 10 3 (BitField.mk 10 [x1c; x00])) _
           (PyStr "spam") (PyInt 12345)); reflexivity.
Defined.

Lemma add_idempotent_witness :
  BloomFilter.add sample_hash
    (BloomFilter.mk 10 3 (BitField.mk 10 [x1c; x00])) (PyStr "spam")
  = Ok (BloomFilter.mk 10 3 (BitField.mk 10 [x1c; x00])).
Proof.
  apply (add_idempotent sample_hash sample_filter _ (PyStr "spam")). reflexivity.
Defined.

Lemma add_commutes_witness :
  exists after_b,
    BloomFilter.add sample_hash sample_filter (PyInt 12345) = Ok after_b
    /\ BloomFilter.add sample_hash after_b (PyStr "spam")
       = Ok (BloomFilter.mk 10 3 (BitField.mk 10 [xfc; x00])).
Proof.
  apply (add_commutes sample_hash sample_filter
           (BloomFilter.mk 10 3 (BitField.mk 10 [x1c; x00])) _
           (PyStr "spam") (PyInt 12345)); reflexivity.
Defined.

Lemma save_layout_witness :
  exists content,
    (<["filter.bin" := le_digits 16 10 ++ le_digits 16 3 ++ [x00; x00]]> ∅ : files)
      !! "filter.bin" = Some content
    /\ length content = (32 + 2)%nat
    /\ from_bytes (take 16 content) = 10
    /\ from_bytes (take 16 (drop 16 content)) = 3
    /\ drop 32 content = [x00; x00]
    /\ forall other, other <> "filter.bin" ->
         (<["filter.bin" := le_digits 16 10 ++ le_digits 16 3 ++ [x00; x00]]> ∅ : files)
           !! other = (∅ : files) !! other.
Proof.
  apply (save_layout sample_filter "filter.bin" ∅). reflexivity.
Defined.

Lemma load_short_file_witness :
  exists loaded,
    BloomFilter.load sample_filter "short.bin" {["short.bin" := [x05]]} = Ok loaded
    /\ BloomFilter.size loaded = from_bytes [x05]
    /\ BloomFilter.hashcount loaded = 0
    /\ BitField.bitfield (BloomFilter.filter loaded) = []
    /\ forall mmh3_hash element,
         BloomFilter.lookup mmh3_hash loaded element = Ok true.
Proof.
  apply (load_short_file sample_filter "short.bin" {["short.bin" := [x05]]} [x05]);
    [reflexivity | simpl; lia].
Defined.

Lemma load_save_roundtrip_witness :
  exists loaded fs' content',
    BloomFilter.load sample_filter "short.bin" {["short.bin" := [x05]]} = Ok loaded
    /\ BloomFilter.save loaded "copy.bin" {["short.bin" := [x05]]} = Ok fs'
    /\ fs' !! "copy.bin" = Some content'
    /\ ((32 <= length [x05])%nat -> content' = [x05]).
Proof.
  apply (load_save_roundtrip sample_filter "short.bin" "copy.bin"
           {["short.bin" := [x05]]} [x05]).
  reflexivity.
Defined.

Lemma added_found_after_reload_witness :
  exists added fs' loaded,
    BloomFilter.add sample_hash small_filter (PyStr "spam") = Ok added
    /\ BloomFilter.save added "filter.bin" ∅ = Ok fs'
    /\ BloomFilter.load degenerate_filter "filter.bin" fs' = Ok loaded
    /\ BloomFilter.lookup sample_hash loaded (PyStr "spam") = Ok true.
Proof.
  apply (added_found_after_reload sample_hash small_filter degenerate_filter
           (PyStr "spam") "filter.bin" ∅);
    [exact small_filter_valid | exact (init_allocated _ _ _ init_quarter)
     | simpl; lia | simpl; lia].
Defined.

Lemma ideal_size_monotone_witness :
  exists n1 n2,
    BloomFilter.ideal_size 1 (1 / 2) = Ok n1
    /\ BloomFilter.ideal_size 2 (1 / 4) = Ok n2
    /\ n1 <= n2.
Proof.
  apply (ideal_size_monotone 1 2 (1 / 2) (1 / 4)); [lia | lra | lra].
Defined.

Lemma init_valid_witness :
  exists self,
    BloomFilter.init 1 (1 / 4) = Ok self
    /\ 2 <= BloomFilter.size self
    /\ BloomFilter.valid self
    /\ BloomFilter.allocated self.
Proof.
  apply (init_valid 1 (1 / 4)); [lia | lra].
Defined.

Lemma hashcount_at_most_size_witness :
  0 <= BloomFilter.hashcount small_filter <= BloomFilter.size small_filter.
Proof.
  apply (hashcount_at_most_size 1 (1 / 4) small_filter);
    [lia | lra | exact init_quarter].
Defined.

Lemma accuracy_is_percentage_witness :
  exists value out,
    BloomFilter.accuracy 2 1 1 = Ok (value, out) /\ (0 <= value <= 100)%R.
Proof.
  apply (accuracy_is_percentage 2 1 1); lia.
Defined.

Lemma accuracy_extremes_witness :
  (exists out, BloomFilter.accuracy 2 1 0 = Ok (100%R, out))
  /\ (exists out, BloomFilter.accuracy 1 1 5 = Ok (0%R, out)).
Proof.
  apply (accuracy_extremes 2 1 5); lia.
Defined.

